(** * A shallow embedding of the 6502 emulator core (main.cpp)

    The C++ program keeps all its state in two structs, [CPU] and [Machine].
    Every [Word] is a [uint8_t] and the program counter and addresses are
    [uint16_t]; both are embedded as [Z] with the conversions that C++ applies
    on assignment and on parameter passing written out ([u8], [u16]).
    Arithmetic in between happens on [int], which is wide enough for every
    expression of the program, so it is plain [Z] arithmetic. *)

From Stdlib Require Import ZArith Lia List Bool.
Import ListNotations.
Local Open Scope Z_scope.

(** ** Fixed-width integers *)

(** Conversion to [uint8_t] ([Word]) and to [uint16_t]. *)
Definition u8 (z : Z) : Z := z mod 256.
Definition u16 (z : Z) : Z := z mod 65536.

(** Conversion of an integer to [bool]. *)
Definition to_bool (z : Z) : bool := negb (z =? 0).

(** ** struct CPU *)

Record CPU : Type := mkCPU {
  PC : Z;  (* Program Counter, uint16_t *)
  AC : Z;  (* Accumulator *)
  X  : Z;  (* X register *)
  Y  : Z;  (* Y register *)
  SR : Z;  (* Status Register (flags) *)
  SP : Z   (* Stack Pointer *)
}.

Definition set_PC (v : Z) (c : CPU) : CPU := mkCPU v (AC c) (X c) (Y c) (SR c) (SP c).
Definition set_AC (v : Z) (c : CPU) : CPU := mkCPU (PC c) v (X c) (Y c) (SR c) (SP c).
Definition set_X  (v : Z) (c : CPU) : CPU := mkCPU (PC c) (AC c) v (Y c) (SR c) (SP c).
Definition set_Y  (v : Z) (c : CPU) : CPU := mkCPU (PC c) (AC c) (X c) v (SR c) (SP c).
Definition set_SR (v : Z) (c : CPU) : CPU := mkCPU (PC c) (AC c) (X c) (Y c) v (SP c).
Definition set_SP (v : Z) (c : CPU) : CPU := mkCPU (PC c) (AC c) (X c) (Y c) (SR c) v.

(** [struct Flag]: the masks of the status register. *)
Module Flag.
Definition Negative  : Z := 0x80.
Definition Overflow  : Z := 0x40.
Definition Ignored   : Z := 0x20.
Definition Break     : Z := 0x10.
Definition Decimal   : Z := 0x08.
Definition Interrupt : Z := 0x04.
Definition Zero      : Z := 0x02.
Definition Carry     : Z := 0x01.
End Flag.

(** Reading a flag off a status byte through its mask. *)
Definition flag_bit (sr : Z) (mask : Z) : bool := to_bool (Z.land sr mask).

(** *** Flag primitives (private members of CPU)

    A by-value [Word] parameter converts its argument, hence the [u8] on
    [flags]; [~flags] is evaluated on [int]. *)

Definition clear_flags (flags : Z) (c : CPU) : CPU :=
  let flags := u8 flags in
  set_SR (u8 (Z.land (SR c) (Z.lnot flags))) c.

Definition set_flags (flags : Z) (c : CPU) : CPU :=
  let flags := u8 flags in
  set_SR (u8 (Z.lor (SR c) flags)) c.

Definition assign_flags (flags : Z) (value : bool) (c : CPU) : CPU :=
  let flags := u8 flags in
  let c := set_SR (u8 (Z.land (SR c) (Z.lnot flags))) c in
  set_SR (u8 (Z.lor (SR c) (if value then flags else 0))) c.

Definition update_zero_flag (w : Z) (c : CPU) : CPU :=
  let w := u8 w in
  assign_flags Flag.Zero (w =? 0) c.

Definition update_negative_flag (w : Z) (c : CPU) : CPU :=
  let w := u8 w in
  assign_flags Flag.Negative (to_bool (Z.land w (Z.shiftl 1 7))) c.

(** *** Instructions that only touch the CPU's own fields *)

Definition nop (c : CPU) : CPU := c.

Definition eor (w : Z) (c : CPU) : CPU :=
  let w := u8 w in
  let c := set_AC (u8 (Z.lxor (AC c) w)) c in
  let c := update_zero_flag (AC c) c in
  update_negative_flag (AC c) c.

Definition ora (w : Z) (c : CPU) : CPU :=
  let w := u8 w in
  let c := set_AC (u8 (Z.lor (AC c) w)) c in
  let c := update_zero_flag (AC c) c in
  update_negative_flag (AC c) c.

(** [AC += w + (SR & Flag::Carry)], then Zero and Negative; the source stops
    there (its comment leaves Carry and Overflow to be done). *)
Definition adc (w : Z) (c : CPU) : CPU :=
  let w := u8 w in
  let c := set_AC (u8 (AC c + (w + Z.land (SR c) Flag.Carry))) c in
  let c := update_zero_flag (AC c) c in
  update_negative_flag (AC c) c.

Definition sbc (w : Z) (c : CPU) : CPU :=
  let w := u8 w in
  let c := set_AC (u8 (AC c - (w + (1 - Z.land (SR c) Flag.Carry)))) c in
  let c := update_zero_flag (AC c) c in
  update_negative_flag (AC c) c.

Definition txs (c : CPU) : CPU := set_SP (X c) c.

Definition clc : CPU -> CPU := clear_flags Flag.Carry.
Definition cld : CPU -> CPU := clear_flags Flag.Decimal.
Definition cli : CPU -> CPU := clear_flags Flag.Interrupt.
Definition clv : CPU -> CPU := clear_flags Flag.Overflow.

Definition sec : CPU -> CPU := set_flags Flag.Carry.
Definition sed : CPU -> CPU := set_flags Flag.Decimal.
Definition sei : CPU -> CPU := set_flags Flag.Interrupt.

(** ** struct Machine *)

Definition memory_size : Z := Z.shiftl 1 16.

(** [std::array<Word, memory_size>]: the cells at the indexes
    [0 .. memory_size - 1]; what the function says elsewhere is never looked
    at, every access goes through [memory_at] or [store]. *)
Record Machine : Type := mkMachine {
  memory : Z -> Z;
  cpu : CPU
}.

Definition set_cpu (c : CPU) (m : Machine) : Machine := mkMachine (memory m) c.
Definition set_memory (f : Z -> Z) (m : Machine) : Machine := mkMachine f (cpu m).

(** ** Calls: a state monad over the machine, with undefined behaviour

    A call either returns a value and leaves a machine state, or runs into
    undefined behaviour: an index outside the array, or the use of a local
    variable that no branch assigned. *)

Inductive undefined : Type :=
| OutOfBounds (i : Z)
| Unassigned.

Inductive outcome (A : Type) : Type :=
| Returns (a : A) (m : Machine)
| Undefined (u : undefined).
Arguments Returns {A} a m.
Arguments Undefined {A} u.

Definition M (A : Type) : Type := Machine -> outcome A.

Definition ret {A} (a : A) : M A := fun m => Returns a m.

Definition bind {A B} (x : M A) (k : A -> M B) : M B :=
  fun m => match x m with
           | Returns a m' => k a m'
           | Undefined u => Undefined u
           end.

Definition undefined_behaviour {A} (u : undefined) : M A := fun _ => Undefined u.

Notation "x <- c1 ;; c2" := (bind c1 (fun x => c2))
  (at level 61, c1 at next level, right associativity).
Notation "c1 ;; c2" := (bind c1 (fun _ => c2))
  (at level 61, right associativity).

Definition get_cpu : M CPU := fun m => Returns (cpu m) m.
Definition on_cpu (f : CPU -> CPU) : M unit := fun m => Returns tt (set_cpu (f (cpu m)) m).

Definition in_bounds (i : Z) : bool := (0 <=? i) && (i <? memory_size).

(** [memory[i]] as an rvalue. *)
Definition memory_at (i : Z) : M Z :=
  fun m => if in_bounds i then Returns (memory m i) m else Undefined (OutOfBounds i).

(** *** [Word&] parameters

    A reference to a [Word] names one of the CPU's 8-bit fields or a memory
    cell; the callee reads and writes through it. *)
Inductive word_ref : Type :=
| RegAC | RegX | RegY | RegSR | RegSP
| Cell (i : Z).

Definition load (r : word_ref) : M Z :=
  match r with
  | RegAC => c <- get_cpu ;; ret (AC c)
  | RegX  => c <- get_cpu ;; ret (X c)
  | RegY  => c <- get_cpu ;; ret (Y c)
  | RegSR => c <- get_cpu ;; ret (SR c)
  | RegSP => c <- get_cpu ;; ret (SP c)
  | Cell i => memory_at i
  end.

Definition store (r : word_ref) (v : Z) : M unit :=
  match r with
  | RegAC => on_cpu (set_AC v)
  | RegX  => on_cpu (set_X v)
  | RegY  => on_cpu (set_Y v)
  | RegSR => on_cpu (set_SR v)
  | RegSP => on_cpu (set_SP v)
  | Cell i => fun m =>
      if in_bounds i
      then Returns tt (set_memory (fun j => if j =? i then v else memory m j) m)
      else Undefined (OutOfBounds i)
  end.

(** *** CPU members that take a [Word&] *)

Definition decrement (w : word_ref) : M unit :=
  v <- load w ;; store w (u8 (v - 1)) ;;
  v <- load w ;; on_cpu (update_zero_flag v) ;;
  v <- load w ;; on_cpu (update_negative_flag v).

Definition increment (w : word_ref) : M unit :=
  v <- load w ;; store w (u8 (v + 1)) ;;
  v <- load w ;; on_cpu (update_zero_flag v) ;;
  v <- load w ;; on_cpu (update_negative_flag v).

(** [dst = src; update_zero_flag(AC); update_negative_flag(AC);] *)
Definition transfer (dst : word_ref) (src : Z) : M unit :=
  let src := u8 src in
  store dst src ;;
  c <- get_cpu ;; on_cpu (update_zero_flag (AC c)) ;;
  c <- get_cpu ;; on_cpu (update_negative_flag (AC c)).

Definition rol (w : word_ref) : M unit :=
  v <- load w ;;
  let new_carry := u8 (Z.shiftr v 7) in
  c <- get_cpu ;;
  store w (u8 (Z.lor (Z.shiftl v 1) (Z.land (SR c) Flag.Carry))) ;;
  v <- load w ;; on_cpu (update_zero_flag v) ;;
  v <- load w ;; on_cpu (update_negative_flag v) ;;
  on_cpu (assign_flags Flag.Carry (to_bool new_carry)).

Definition lda (w : Z) : M unit := transfer RegAC w.
Definition ldx (w : Z) : M unit := transfer RegX w.
Definition ldy (w : Z) : M unit := transfer RegY w.

Definition dex : M unit := decrement RegX.
Definition dey : M unit := decrement RegY.
Definition inx : M unit := increment RegX.
Definition iny : M unit := increment RegY.
Definition inc (w : word_ref) : M unit := increment w.

Definition tax : M unit := c <- get_cpu ;; transfer RegX (AC c).
Definition tay : M unit := c <- get_cpu ;; transfer RegY (AC c).
Definition txa : M unit := c <- get_cpu ;; transfer RegAC (X c).
Definition tya : M unit := c <- get_cpu ;; transfer RegAC (Y c).
Definition tsx : M unit := c <- get_cpu ;; transfer RegX (SP c).

(** *** Machine members *)

Definition read_word (address : Z) : M Z :=
  let address := u16 address in
  memory_at address.

(** [uint16_t(memory[address + 1]) << 8 | memory[address]]: the index
    [address + 1] is computed on [int] and is not reduced. *)
Definition read_long (address : Z) : M Z :=
  let address := u16 address in
  hi <- memory_at (address + 1) ;;
  lo <- memory_at address ;;
  ret (u16 (Z.lor (Z.shiftl (u16 hi) 8) lo)).

Definition lo_nibble (opcode : Z) : Z := u8 (Z.land opcode 0x0f).

Definition addressing_mode (opcode : Z) : Z :=
  let lo_op := u8 (Z.land opcode 0x0f) in
  let hi_op := u8 (Z.shiftr (Z.land opcode 0xf0) 4) in
  u8 (Z.lor (Z.shiftr (lo_op - 1) 1) (Z.land hi_op 0x01)).

(** The [switch] of [normal_dispatch]. The locals [address] and [width] are
    declared without a value; a mode without a [case] leaves both as they
    were, which is [None] here. *)
Definition resolve (mode : Z) : M (option Z * option Z) :=
  c <- get_cpu ;;
  if mode =? 0 then      (* (indirect, x) *)
    p <- read_word (PC c + 1) ;;
    a <- read_long (p + X c) ;;
    ret (Some (u16 a), Some (u8 2))
  else if mode =? 1 then (* (indirect), y *)
    p <- read_word (PC c + 1) ;;
    a <- read_long p ;;
    ret (Some (u16 (a + Y c)), Some (u8 2))
  else if mode =? 2 then (* zero page *)
    p <- read_word (PC c + 1) ;;
    ret (Some (u16 p), Some (u8 2))
  else if mode =? 3 then (* zero page+x *)
    p <- read_word (PC c + 1) ;;
    ret (Some (u16 (u8 (p + X c))), Some (u8 2))
  else if mode =? 4 then (* immediate *)
    ret (Some (u16 (PC c + 1)), Some (u8 2))
  else if mode =? 5 then (* absolute, y *)
    a <- read_long (PC c + 1) ;;
    ret (Some (u16 (a + Y c)), Some (u8 3))
  else if mode =? 6 then (* absolute *)
    a <- read_long (PC c + 1) ;;
    ret (Some (u16 a), Some (u8 3))
  else if mode =? 7 then (* absolute, x *)
    a <- read_long (PC c + 1) ;;
    ret (Some (u16 (a + X c)), Some (u8 3))
  else ret (None, None).

(** Reading a local variable. *)
Definition use {A} (x : option A) : M A :=
  match x with
  | Some a => ret a
  | None => undefined_behaviour Unassigned
  end.

Definition normal_dispatch (opcode : Z) : M unit :=
  let opcode := u8 opcode in
  r <- resolve (addressing_mode opcode) ;;
  let '(address, width) := r in
  address <- use address ;;
  w <- memory_at address ;;
  on_cpu (adc w) ;;
  width <- use width ;;
  on_cpu (fun c => set_PC (u16 (PC c + width)) c).

(** The [case] labels of the switch in [execute_instruction]; it has no
    [default]. *)
Definition recognised (lo_op : Z) : bool :=
  (lo_op =? 0x01) || (lo_op =? 0x05) || (lo_op =? 0x06)
  || (lo_op =? 0x09) || (lo_op =? 0x0D) || (lo_op =? 0x0E).

Definition execute_instruction : M unit :=
  c <- get_cpu ;;
  opcode <- read_word (PC c) ;;
  let lo_op := u8 (Z.land opcode 0x0f) in
  let hi_op := u8 (Z.shiftr opcode 4) in
  if recognised lo_op then normal_dispatch opcode else ret tt.

(** ** Vocabulary of the statements *)

(** The registers other than the status register. *)
Definition same_registers (c c' : CPU) : Prop :=
  PC c' = PC c /\ AC c' = AC c /\ X c' = X c /\ Y c' = Y c /\ SP c' = SP c.

(** Writing a register through a reference to it. *)
Definition set_reg (r : word_ref) (v : Z) (c : CPU) : CPU :=
  match r with
  | RegAC => set_AC v c
  | RegX => set_X v c
  | RegY => set_Y v c
  | RegSR => set_SR v c
  | RegSP => set_SP v c
  | Cell _ => c
  end.

Definition is_register (r : word_ref) : bool :=
  match r with Cell _ => false | _ => true end.

(** The byte the program counter points at. *)
Definition opcode_at (m : Machine) : Z := memory m (u16 (PC (cpu m))).

(** A step that the caller cannot tell from no step at all: the call comes
    back (it is [void]) and the machine is as it was. *)
Definition silently_ignored (m : Machine) : Prop :=
  execute_instruction m = Returns tt m.

(** A step at an opcode outside the recognised low nibbles that is not
    silently ignored and leaves the CPU as it was. *)
Definition step_reports_unimplemented (m : Machine) : Prop :=
  recognised (lo_nibble (opcode_at m)) = false ->
  ~ silently_ignored m
  /\ (forall a m', execute_instruction m = Returns a m' -> cpu m' = cpu m).

(** *** Example states

    A two-byte instruction at 0x0600 in an otherwise empty memory, and a CPU
    about to execute it. *)
Definition program (opcode operand : Z) : Z -> Z :=
  fun i => if i =? 0x0600 then opcode else if i =? 0x0601 then operand else 0.

Definition at_0600 (ac x sr : Z) : CPU := mkCPU 0x0600 ac x 0 sr 0xFF.

(** Opcode 0x00: low nibble 0, not one the dispatcher knows. *)
Definition m_brk : Machine := mkMachine (program 0x00 0x00) (at_0600 0x12 0x34 0x21).

(** Opcode 0x61 (indexed indirect) with operand 0xFF and X = 1; page zero
    holds [page0], the two cells after it hold 0x33 and 0x44. *)
Definition m_indirect (page0 : Z -> Z) : Machine :=
  mkMachine (fun i => if i <? 0x0100 then page0 i
                      else if i =? 0x0100 then 0x33
                      else if i =? 0x0101 then 0x44
                      else program 0x61 0xFF i)
            (at_0600 0x00 0x01 0x00).

(** Opcode 0x6D (absolute) in the last two bytes but one of the address
    space: its operand address is read at 0xFFFF. *)
Definition m_top : Machine :=
  mkMachine (fun i => if i =? 0xFFFE then 0x6D else 0) (mkCPU 0xFFFE 0 0 0 0 0xFF).

(** The CPU a call leaves behind, when it returns. *)
Definition cpu_after {A} (r : outcome A) : option CPU :=
  match r with
  | Returns _ m => Some (cpu m)
  | Undefined _ => None
  end.

(** *** Well-formed states

    What the C++ types guarantee of every state the program can be in: the
    8-bit fields and the memory cells hold bytes, PC holds a 16-bit value. *)
Definition byte (z : Z) : Prop := 0 <= z < 256.

Definition wf_cpu (c : CPU) : Prop :=
  0 <= PC c < 65536 /\ byte (AC c) /\ byte (X c) /\ byte (Y c) /\ byte (SR c) /\ byte (SP c).

Definition wf_memory (f : Z -> Z) : Prop := forall i, 0 <= i < 65536 -> byte (f i).

Definition wf_machine (m : Machine) : Prop := wf_memory (memory m) /\ wf_cpu (cpu m).

(** The six flags other than Zero and Negative keep their value. *)
Definition keeps_flags_but_ZN (c c' : CPU) : Prop :=
  Forall (fun mask => flag_bit (SR c') mask = flag_bit (SR c) mask)
         [Flag.Carry; Flag.Interrupt; Flag.Decimal; Flag.Break; Flag.Ignored; Flag.Overflow].

(** The table in the comment of [normal_dispatch]: the even addressing mode
    of each low nibble (01 => 0 or 1, 05 06 => 2 or 3, 09 => 4 or 5,
    0d 0e => 6 or 7). *)
Definition mode_pair (lo_op : Z) : Z :=
  if lo_op =? 0x01 then 0
  else if (lo_op =? 0x05) || (lo_op =? 0x06) then 2
  else if lo_op =? 0x09 then 4
  else 6.

(** The encoded length of an instruction in each addressing mode, as the
    cases of the switch assign it. *)
Definition width_of_mode (mode : Z) : Z := if mode <? 5 then 2 else 3.

(** An empty memory and a CPU with every register distinct, for instances. *)
Definition blank : Z -> Z := fun _ => 0.
Definition c_demo : CPU := mkCPU 0x0600 0x3C 0xFF 0x00 0x41 0xFD.

(** PC, X, Y and SP keep their value (the accumulator and the flags may
    change). *)
Definition keeps_PC_X_Y_SP (c c' : CPU) : Prop :=
  PC c' = PC c /\ X c' = X c /\ Y c' = Y c /\ SP c' = SP c.

(** The address operand of an instruction: the little-endian 16-bit value
    in the two cells after the opcode. *)
Definition operand16 (m : Machine) : Z :=
  memory m (PC (cpu m) + 1) + 256 * memory m (PC (cpu m) + 2).

(** * Properties *)

(** ** Fixed-width conversions and bits *)

Lemma u8_range (z : Z) : 0 <= u8 z < 256.
Proof. unfold u8. apply Z.mod_pos_bound. lia. Qed.

Lemma u16_range (z : Z) : 0 <= u16 z < 65536.
Proof. unfold u16. apply Z.mod_pos_bound. lia. Qed.

Lemma u8_small (z : Z) : 0 <= z < 256 -> u8 z = z.
Proof. intros H. unfold u8. now apply Z.mod_small. Qed.

Lemma u16_small (z : Z) : 0 <= z < 65536 -> u16 z = z.
Proof. intros H. unfold u16. now apply Z.mod_small. Qed.

Lemma u8_idem (z : Z) : u8 (u8 z) = u8 z.
Proof. apply u8_small, u8_range. Qed.

Lemma u16_idem (z : Z) : u16 (u16 z) = u16 z.
Proof. apply u16_small, u16_range. Qed.

Lemma u16_u8 (z : Z) : u16 (u8 z) = u8 z.
Proof. apply u16_small. pose proof (u8_range z). lia. Qed.

Lemma testbit_u8_low (z n : Z) : 0 <= n < 8 -> Z.testbit (u8 z) n = Z.testbit z n.
Proof.
  intros H. unfold u8. change 256 with (2 ^ 8).
  apply Z.mod_pow2_bits_low. lia.
Qed.

(** A position below 8 is one of the eight. *)
Lemma bit_cases (n : Z) :
  0 <= n < 8 -> n = 0 \/ n = 1 \/ n = 2 \/ n = 3 \/ n = 4 \/ n = 5 \/ n = 6 \/ n = 7.
Proof. lia. Qed.

Ltac each_bit n H :=
  destruct (bit_cases n H) as [->|[->|[->|[->|[->|[->|[->| ->]]]]]]].

(** Reading a flag through its mask is reading the mask's bit. *)
Lemma flag_bit_testbit (sr k : Z) :
  0 <= k -> flag_bit sr (Z.shiftl 1 k) = Z.testbit sr k.
Proof.
  intros Hk. unfold flag_bit, to_bool.
  rewrite Z.shiftl_1_l.
  destruct (Z.testbit sr k) eqn:E.
  - destruct (Z.eqb_spec (Z.land sr (2 ^ k)) 0) as [H0|]; [|reflexivity].
    assert (Z.testbit (Z.land sr (2 ^ k)) k = true) as Hb
      by (rewrite Z.land_spec, E, Z.pow2_bits_true; auto).
    rewrite H0, Z.bits_0 in Hb. discriminate.
  - assert (Z.land sr (2 ^ k) = 0) as ->; [|reflexivity].
    apply Z.bits_inj'. intros i Hi.
    rewrite Z.land_spec, Z.bits_0.
    destruct (Z.eq_dec i k) as [->|Hne].
    + now rewrite E.
    + rewrite (Z.pow2_bits_false k i) by lia. apply andb_false_r.
Qed.

(** ** The flag primitives, bit by bit *)

Section FlagPrimitives.
Variable c : CPU.
Variables flags n : Z.
Hypothesis Hn : 0 <= n < 8.

Lemma SR_clear_flags_bit :
  Z.testbit (SR (clear_flags flags c)) n
  = Z.testbit (SR c) n && negb (Z.testbit flags n).
Proof.
  unfold clear_flags. cbn [SR set_SR].
  rewrite testbit_u8_low, Z.land_spec, Z.lnot_spec, testbit_u8_low by lia.
  reflexivity.
Qed.

Lemma SR_set_flags_bit :
  Z.testbit (SR (set_flags flags c)) n
  = Z.testbit (SR c) n || Z.testbit flags n.
Proof.
  unfold set_flags. cbn [SR set_SR].
  rewrite testbit_u8_low, Z.lor_spec, testbit_u8_low by lia.
  reflexivity.
Qed.

Lemma SR_assign_flags_bit (value : bool) :
  Z.testbit (SR (assign_flags flags value c)) n
  = if Z.testbit flags n then value else Z.testbit (SR c) n.
Proof.
  unfold assign_flags. cbn [SR set_SR].
  rewrite testbit_u8_low, Z.lor_spec, testbit_u8_low by lia.
  rewrite Z.land_spec, Z.lnot_spec, testbit_u8_low by lia.
  destruct value.
  - rewrite testbit_u8_low by lia.
    destruct (Z.testbit flags n), (Z.testbit (SR c) n); reflexivity.
  - rewrite Z.bits_0.
    destruct (Z.testbit flags n), (Z.testbit (SR c) n); reflexivity.
Qed.
End FlagPrimitives.

Lemma same_registers_refl (c : CPU) : same_registers c c.
Proof. repeat split. Qed.

Lemma clear_flags_registers (flags : Z) (c : CPU) : same_registers c (clear_flags flags c).
Proof. repeat split. Qed.

Lemma set_flags_registers (flags : Z) (c : CPU) : same_registers c (set_flags flags c).
Proof. repeat split. Qed.

Lemma assign_flags_registers (flags : Z) (value : bool) (c : CPU) :
  same_registers c (assign_flags flags value c).
Proof. repeat split. Qed.

Create HintDb regs.
#[local] Hint Resolve same_registers_refl clear_flags_registers set_flags_registers
  assign_flags_registers : regs.

(** C9. The flag primitives [clear_flags], [set_flags] and [assign_flags]
    leave every bit of the status register outside the mask as it was (and
    give the bits inside the mask the value asked for), and touch no other
    register; so each of CLC, CLD, CLI, CLV, SEC, SED, SEI gives its one
    named bit the new value and leaves the seven other flag bits, PC, AC, X,
    Y and SP unchanged. *)
Theorem flag_primitives_frame (c : CPU) (flags : Z) (value : bool) (n : Z)
    (Hn : 0 <= n < 8) :
  (Z.testbit flags n = false ->
     Z.testbit (SR (clear_flags flags c)) n = Z.testbit (SR c) n
     /\ Z.testbit (SR (set_flags flags c)) n = Z.testbit (SR c) n
     /\ Z.testbit (SR (assign_flags flags value c)) n = Z.testbit (SR c) n)
  /\ (Z.testbit flags n = true ->
     Z.testbit (SR (clear_flags flags c)) n = false
     /\ Z.testbit (SR (set_flags flags c)) n = true
     /\ Z.testbit (SR (assign_flags flags value c)) n = value)
  /\ (same_registers c (clear_flags flags c)
      /\ same_registers c (set_flags flags c)
      /\ same_registers c (assign_flags flags value c))
  /\ (Z.testbit (SR (clc c)) n = (if n =? 0 then false else Z.testbit (SR c) n)
      /\ Z.testbit (SR (cld c)) n = (if n =? 3 then false else Z.testbit (SR c) n)
      /\ Z.testbit (SR (cli c)) n = (if n =? 2 then false else Z.testbit (SR c) n)
      /\ Z.testbit (SR (clv c)) n = (if n =? 6 then false else Z.testbit (SR c) n)
      /\ Z.testbit (SR (sec c)) n = (if n =? 0 then true else Z.testbit (SR c) n)
      /\ Z.testbit (SR (sed c)) n = (if n =? 3 then true else Z.testbit (SR c) n)
      /\ Z.testbit (SR (sei c)) n = (if n =? 2 then true else Z.testbit (SR c) n))
  /\ (same_registers c (clc c) /\ same_registers c (cld c)
      /\ same_registers c (cli c) /\ same_registers c (clv c)
      /\ same_registers c (sec c) /\ same_registers c (sed c)
      /\ same_registers c (sei c)).
Proof.
  split; [|split; [|split; [|split]]].
  - intros Hf.
    rewrite SR_clear_flags_bit, SR_set_flags_bit, SR_assign_flags_bit, Hf by assumption.
    rewrite andb_true_r, orb_false_r. auto.
  - intros Hf.
    rewrite SR_clear_flags_bit, SR_set_flags_bit, SR_assign_flags_bit, Hf by assumption.
    rewrite andb_false_r, orb_true_r. auto.
  - auto with regs.
  - unfold clc, cld, cli, clv, sec, sed, sei.
    rewrite !SR_clear_flags_bit, !SR_set_flags_bit by assumption.
    remember (Z.testbit (SR c) n) as b eqn:Eb. clear Eb.
    each_bit n Hn; destruct b; repeat split; reflexivity.
  - unfold clc, cld, cli, clv, sec, sed, sei. repeat split.
Qed.

Lemma flag_primitives_frame_witness :
  Z.testbit (SR (clc (mkCPU 0x0600 0x12 0x34 0x56 0xFF 0xFD))) 0 = false
  /\ Z.testbit (SR (clc (mkCPU 0x0600 0x12 0x34 0x56 0xFF 0xFD))) 6 = true.
Proof.
  split.
  - pose proof (flag_primitives_frame (mkCPU 0x0600 0x12 0x34 0x56 0xFF 0xFD)
                  Flag.Carry true 0 ltac:(lia)) as H.
    destruct H as (_ & _ & _ & (H & _) & _). exact H.
  - reflexivity.
Defined.

(** ** Zero and Negative *)

Lemma to_bool_bit7 (w : Z) : to_bool (Z.land w (Z.shiftl 1 7)) = Z.testbit w 7.
Proof. apply (flag_bit_testbit w 7). lia. Qed.

Section ZeroNegative.
Variable c : CPU.
Variables w n : Z.
Hypothesis Hn : 0 <= n < 8.

Lemma SR_update_zero_flag_bit :
  Z.testbit (SR (update_zero_flag w c)) n
  = if n =? 1 then u8 w =? 0 else Z.testbit (SR c) n.
Proof.
  unfold update_zero_flag. rewrite SR_assign_flags_bit by assumption.
  each_bit n Hn; reflexivity.
Qed.

Lemma SR_update_negative_flag_bit :
  Z.testbit (SR (update_negative_flag w c)) n
  = if n =? 7 then Z.testbit (u8 w) 7 else Z.testbit (SR c) n.
Proof.
  unfold update_negative_flag.
  rewrite SR_assign_flags_bit, to_bool_bit7 by assumption.
  each_bit n Hn; reflexivity.
Qed.
End ZeroNegative.

(** ** adc *)

(** What [adc] does to the status register: Zero and Negative follow the new
    accumulator, the six other bits keep their value. *)
Lemma SR_adc_bit (w : Z) (c : CPU) (n : Z) :
  0 <= n < 8 ->
  Z.testbit (SR (adc w c)) n
  = if n =? 7 then Z.testbit (AC (adc w c)) 7
    else if n =? 1 then AC (adc w c) =? 0
    else Z.testbit (SR c) n.
Proof.
  intros Hn. unfold adc.
  rewrite SR_update_negative_flag_bit, SR_update_zero_flag_bit by assumption.
  cbn [AC SR set_AC update_zero_flag assign_flags set_SR].
  rewrite u8_idem.
  each_bit n Hn; reflexivity.
Qed.

Lemma AC_adc (w : Z) (c : CPU) :
  AC (adc w c) = u8 (AC c + (u8 w + Z.land (SR c) Flag.Carry)).
Proof. reflexivity. Qed.

(** C1. [adc] leaves the Carry and the Overflow flag as they were, whatever
    the sum: with Accumulator 0x50, operand 0x50 and Carry clear the result
    is 0xA0 with Negative set and Zero clear, but Overflow stays clear; with
    Accumulator 0xFF and operand 0x01 the 9-bit sum is 0x100 and Carry stays
    clear. *)
Theorem adc_keeps_carry_and_overflow :
  (forall w c,
      Z.testbit (SR (adc w c)) 0 = Z.testbit (SR c) 0
      /\ Z.testbit (SR (adc w c)) 6 = Z.testbit (SR c) 6)
  /\ (let c := adc 0x50 (mkCPU 0x0600 0x50 0 0 0x00 0xFF) in
      AC c = 0xA0
      /\ flag_bit (SR c) Flag.Negative = true
      /\ flag_bit (SR c) Flag.Zero = false
      /\ flag_bit (SR c) Flag.Carry = false
      /\ flag_bit (SR c) Flag.Overflow = false)
  /\ (let c := adc 0x01 (mkCPU 0x0600 0xFF 0 0 0x00 0xFF) in
      AC c = 0x00
      /\ Z.testbit (0xFF + 0x01 + 0) 8 = true
      /\ flag_bit (SR c) Flag.Carry = false).
Proof.
  split; [|split].
  - intros w c. rewrite !SR_adc_bit by lia. split; reflexivity.
  - repeat split.
  - repeat split.
Qed.

(** ** transfer and the loads *)

(** [transfer] into a register, in one piece: the flags are computed from
    the accumulator as it is after the assignment. *)
Lemma transfer_register (dst : word_ref) (src : Z) (m : Machine) :
  is_register dst = true ->
  transfer dst src m
  = Returns tt (set_cpu (let c := set_reg dst (u8 src) (cpu m) in
                         let c := update_zero_flag (AC c) c in
                         update_negative_flag (AC c) c) m).
Proof. destruct dst; intros H; try discriminate H; reflexivity. Qed.

(** Where the destination is the accumulator, or the source is, the flags
    do follow the value moved: LDA, TXA, TYA, TAX and TAY. *)
Lemma transfer_accumulator_flags (dst : word_ref) (v : Z) (m : Machine) :
  dst = RegAC \/ ((dst = RegX \/ dst = RegY) /\ v = AC (cpu m)) ->
  exists m', transfer dst v m = Returns tt m'
    /\ load dst m' = Returns (u8 v) m'
    /\ Z.testbit (SR (cpu m')) 1 = (u8 v =? 0)
    /\ Z.testbit (SR (cpu m')) 7 = Z.testbit (u8 v) 7.
Proof.
  intros Hdst.
  assert (is_register dst = true) as Hreg
    by (destruct Hdst as [-> | [[-> | ->] _]]; reflexivity).
  rewrite transfer_register by assumption.
  eexists; split; [reflexivity|].
  cbn [cpu set_cpu].
  rewrite !SR_update_negative_flag_bit, !SR_update_zero_flag_bit by lia.
  cbn [Z.eqb Pos.eqb AC update_zero_flag assign_flags set_SR].
  destruct Hdst as [-> | [[-> | ->] ->]];
    cbn [set_reg AC set_AC set_X set_Y]; rewrite ?u8_idem; repeat split.
Qed.

(** C3. [transfer] computes Zero and Negative from the accumulator whatever
    the destination: LDX, LDY and TSX put the value into X or Y and then set
    the flags from the unchanged accumulator. With the accumulator 0 and
    the status register 0, loading 0x80 into X leaves X = 0x80 with Zero
    set and Negative clear. *)
Theorem transfer_flags_from_accumulator :
  (forall v m,
      ldx v m = Returns tt (set_cpu (update_negative_flag (AC (cpu m))
                                       (update_zero_flag (AC (cpu m))
                                          (set_X (u8 v) (cpu m)))) m)
      /\ ldy v m = Returns tt (set_cpu (update_negative_flag (AC (cpu m))
                                          (update_zero_flag (AC (cpu m))
                                             (set_Y (u8 v) (cpu m)))) m))
  /\ (forall m,
      tsx m = Returns tt (set_cpu (update_negative_flag (AC (cpu m))
                                     (update_zero_flag (AC (cpu m))
                                        (set_X (u8 (SP (cpu m))) (cpu m)))) m))
  /\ (forall mem,
      exists m', ldx 0x80 (mkMachine mem (mkCPU 0x0600 0x00 0 0 0x00 0xFF)) = Returns tt m'
        /\ X (cpu m') = 0x80
        /\ flag_bit (SR (cpu m')) Flag.Zero = true
        /\ flag_bit (SR (cpu m')) Flag.Negative = false).
Proof.
  split; [|split].
  - intros v m. split; reflexivity.
  - intros m. reflexivity.
  - intros mem. eexists. repeat split.
Qed.

(** ** rol *)

Lemma shiftr7_bit (w : Z) : 0 <= w < 256 -> to_bool (u8 (Z.shiftr w 7)) = Z.testbit w 7.
Proof.
  intros Hw.
  assert (Z.testbit w 7 = Z.testbit (Z.shiftr w 7) 0) as ->
    by (rewrite Z.shiftr_spec by lia; reflexivity).
  rewrite Z.shiftr_div_pow2 by lia. change (2 ^ 7) with 128.
  assert (w / 128 = 0 \/ w / 128 = 1) as [-> | ->]
    by (pose proof (Z.div_pos w 128);
        pose proof (Z.div_lt_upper_bound w 128 2); lia);
    reflexivity.
Qed.

(** The status register after the three flag updates of [rol]. *)
Lemma SR_rol_bits (c : CPU) (w w' n : Z) :
  0 <= n < 8 -> 0 <= w < 256 ->
  Z.testbit (SR (assign_flags Flag.Carry (to_bool (u8 (Z.shiftr w 7)))
                   (update_negative_flag w' (update_zero_flag w' c)))) n
  = if n =? 0 then Z.testbit w 7
    else if n =? 1 then u8 w' =? 0
    else if n =? 7 then Z.testbit (u8 w') 7
    else Z.testbit (SR c) n.
Proof.
  intros Hn Hw.
  rewrite SR_assign_flags_bit, SR_update_negative_flag_bit,
    SR_update_zero_flag_bit, shiftr7_bit by assumption.
  each_bit n Hn; reflexivity.
Qed.

(** C8. [rol] on an operand byte [w] held somewhere other than in the
    status register writes [(w << 1) | carry-in], truncated to 8 bits, back
    to the same place, sets Carry to bit 7 of [w], Zero and Negative from
    the value written back, and keeps the five other flag bits. *)
Theorem rol_spec (m : Machine) (r : word_ref) (w : Z)
    (Hr : r <> RegSR) (Hw : 0 <= w < 256) (Hload : load r m = Returns w m) :
  let carry_in := Z.land (SR (cpu m)) Flag.Carry in
  let w' := u8 (Z.lor (Z.shiftl w 1) carry_in) in
  exists m',
    rol r m = Returns tt m'
    /\ load r m' = Returns w' m'
    /\ Z.testbit (SR (cpu m')) 0 = Z.testbit w 7
    /\ Z.testbit (SR (cpu m')) 1 = (w' =? 0)
    /\ Z.testbit (SR (cpu m')) 7 = Z.testbit w' 7
    /\ (forall n, 0 <= n < 8 -> n <> 0 -> n <> 1 -> n <> 7 ->
        Z.testbit (SR (cpu m')) n = Z.testbit (SR (cpu m)) n).
Proof.
  intros carry_in w'.
  assert (u8 w' = w') as Hw' by apply u8_idem.
  assert (forall c n, 0 <= n < 8 -> SR c = SR (cpu m) ->
     Z.testbit (SR (assign_flags Flag.Carry (to_bool (u8 (Z.shiftr w 7)))
                   (update_negative_flag w' (update_zero_flag w' c)))) n
     = if n =? 0 then Z.testbit w 7
       else if n =? 1 then w' =? 0
       else if n =? 7 then Z.testbit w' 7
       else Z.testbit (SR (cpu m)) n) as Hbits.
  { intros c n Hn Hc. rewrite SR_rol_bits, Hw', Hc by assumption. reflexivity. }
  assert (forall c, SR c = SR (cpu m) ->
     let c' := assign_flags Flag.Carry (to_bool (u8 (Z.shiftr w 7)))
                 (update_negative_flag w' (update_zero_flag w' c)) in
     Z.testbit (SR c') 0 = Z.testbit w 7
     /\ Z.testbit (SR c') 1 = (w' =? 0)
     /\ Z.testbit (SR c') 7 = Z.testbit w' 7
     /\ (forall n, 0 <= n < 8 -> n <> 0 -> n <> 1 -> n <> 7 ->
         Z.testbit (SR c') n = Z.testbit (SR (cpu m)) n)) as Hflags.
  { intros c Hc c'. subst c'. repeat split.
    - rewrite Hbits by (lia || assumption). reflexivity.
    - rewrite Hbits by (lia || assumption). reflexivity.
    - rewrite Hbits by (lia || assumption). reflexivity.
    - intros n Hn H0 H1 H7. rewrite Hbits by assumption.
      destruct (Z.eqb_spec n 0); [lia|].
      destruct (Z.eqb_spec n 1); [lia|].
      destruct (Z.eqb_spec n 7); [lia|]. reflexivity. }
  destruct r as [ | | | | | i]; try congruence.
  1-4: injection Hload as Ew;
    eexists; split;
      [ unfold rol, load, store, bind, get_cpu, on_cpu, ret;
        cbn [cpu set_cpu AC X Y SP]; rewrite Ew; reflexivity
      | split; [reflexivity | apply Hflags; reflexivity] ].
  - (* a memory cell *)
    unfold load, memory_at in Hload.
    destruct (in_bounds i) eqn:Hi; [|discriminate].
    injection Hload as Ew.
    exists (set_cpu (assign_flags Flag.Carry (to_bool (u8 (Z.shiftr w 7)))
              (update_negative_flag w' (update_zero_flag w' (cpu m))))
             (set_memory (fun j => if j =? i then w' else memory m j) m)).
    split; [|split].
    + unfold rol, bind, load, store, memory_at, get_cpu, on_cpu, ret.
      rewrite Hi. cbn [memory cpu set_memory set_cpu].
      rewrite ?Hi, Z.eqb_refl, Ew. reflexivity.
    + unfold load, memory_at. rewrite Hi. cbn [memory set_cpu set_memory].
      rewrite Z.eqb_refl. reflexivity.
    + apply Hflags. reflexivity.
Qed.

Lemma rol_spec_witness :
  exists m',
    rol RegAC (mkMachine (program 0x2A 0x00) (at_0600 0x80 0 0x00)) = Returns tt m'
    /\ load RegAC m' = Returns 0x00 m'
    /\ Z.testbit (SR (cpu m')) 0 = true
    /\ Z.testbit (SR (cpu m')) 1 = true.
Proof.
  destruct (rol_spec (mkMachine (program 0x2A 0x00) (at_0600 0x80 0 0x00)) RegAC 0x80
              ltac:(discriminate) ltac:(lia) eq_refl)
    as (m' & Hrol & Hload & H0 & H1 & _).
  exists m'. repeat split; assumption.
Defined.

(** ** Memory reads *)

Lemma in_bounds_u16 (z : Z) : in_bounds (u16 z) = true.
Proof.
  unfold in_bounds. pose proof (u16_range z).
  change memory_size with 65536.
  apply andb_true_intro. split; [apply Z.leb_le | apply Z.ltb_lt]; lia.
Qed.

Lemma in_bounds_iff (i : Z) : in_bounds i = true <-> 0 <= i < 65536.
Proof.
  unfold in_bounds. change memory_size with 65536.
  rewrite andb_true_iff, Z.leb_le, Z.ltb_lt. reflexivity.
Qed.

Lemma read_word_total (address : Z) (m : Machine) :
  read_word address m = Returns (memory m (u16 address)) m.
Proof. unfold read_word, memory_at. now rewrite in_bounds_u16. Qed.

Lemma read_long_cases (address : Z) (m : Machine) :
  read_long address m
  = if in_bounds (u16 address + 1)
    then Returns (u16 (Z.lor (Z.shiftl (u16 (memory m (u16 address + 1))) 8)
                             (memory m (u16 address)))) m
    else Undefined (OutOfBounds (u16 address + 1)).
Proof.
  unfold read_long, bind, memory_at, ret.
  destruct (in_bounds (u16 address + 1)); [|reflexivity].
  now rewrite in_bounds_u16.
Qed.

(** Below the last address both bytes are inside the array. *)
Lemma read_long_below_top (address : Z) (m : Machine) :
  0 <= address < 0xFFFF ->
  read_long address m
  = Returns (u16 (Z.lor (Z.shiftl (u16 (memory m (address + 1))) 8)
                        (memory m address))) m.
Proof.
  intros H. rewrite read_long_cases, u16_small by lia.
  assert (in_bounds (address + 1) = true) as -> by (apply in_bounds_iff; lia).
  reflexivity.
Qed.

(** C7. At the last address, 0xFFFF, [read_long] indexes the memory array
    with [address + 1] = 65536, which is one past its last cell; the index
    is not taken modulo 65536. A step reaches this read with PC = 0xFFFE
    and an absolute-mode opcode. (Below 0xFFFF the read returns the two
    bytes combined, see [read_long_below_top].) *)
Theorem read_long_top_out_of_bounds :
  in_bounds 65536 = false
  /\ (forall m, read_long 0xFFFF m = Undefined (OutOfBounds 65536))
  /\ execute_instruction m_top = Undefined (OutOfBounds 65536).
Proof. split; [reflexivity | split; [intros m|]; reflexivity]. Qed.

(** ** The addressing modes *)

(** Select the case of the switch for a literal mode. *)
Ltac switch_case := unfold resolve, bind, get_cpu, ret; cbn [Z.eqb Pos.eqb].

(** C6. Zero-page-indexed-X resolution (case 3 of the switch) always
    returns, with the address [(b + X) mod 256] where [b] is the byte at
    PC + 1, zero-extended to 16 bits, and width 2; the address is below
    0x0100 whatever the byte and X are. *)
Theorem zero_page_x_stays_in_page_zero (m : Machine) :
  let b := memory m (u16 (PC (cpu m) + 1)) in
  read_word (PC (cpu m) + 1) m = Returns b m
  /\ resolve 3 m = Returns (Some ((b + X (cpu m)) mod 256), Some 2) m
  /\ 0 <= (b + X (cpu m)) mod 256 < 0x0100.
Proof.
  intros b. split; [apply read_word_total|]. split.
  - switch_case.
    rewrite read_word_total, u16_u8. reflexivity.
  - apply (u8_range (b + X (cpu m))).
Qed.

(** Indexed-indirect resolution (case 0) for a pointer byte and an X that
    are bytes: the sum is a 9-bit value and the pointer is read at the sum
    and the cell after it. *)
Lemma resolve_indexed_indirect (m : Machine) :
  let p := memory m (u16 (PC (cpu m) + 1)) in
  let s := p + X (cpu m) in
  0 <= p < 256 -> 0 <= X (cpu m) < 256 ->
  resolve 0 m
  = Returns (Some (u16 (Z.lor (Z.shiftl (u16 (memory m (s + 1))) 8) (memory m s))),
             Some 2) m.
Proof.
  intros p s Hp Hx.
  switch_case.
  rewrite read_word_total. fold p. fold s.
  rewrite read_long_below_top by (subst s; lia).
  rewrite u16_idem. reflexivity.
Qed.

(** C5. Indexed-indirect resolution adds X to the pointer byte without
    reducing the sum to 8 bits: with the byte 0xFF at PC + 1 and X = 1 the
    pointer is read at 0x0100 and 0x0101 (holding 0x33 and 0x44), giving
    the address 0x4433 whatever page zero holds, so neither pointer byte
    comes from page zero. *)
Theorem indexed_indirect_reads_beyond_page_zero :
  forall page0 : Z -> Z,
    memory (m_indirect page0) (PC (cpu (m_indirect page0)) + 1) = 0xFF
    /\ X (cpu (m_indirect page0)) = 0x01
    /\ u8 (0xFF + 0x01) = 0x00
    /\ resolve (addressing_mode (opcode_at (m_indirect page0))) (m_indirect page0)
       = Returns (Some 0x4433, Some 2) (m_indirect page0).
Proof. intros page0. repeat split. Qed.

(** ** Decoding *)

Lemma land_u8 (z k : Z) : Z.land 255 k = k -> Z.land (u8 z) k = Z.land z k.
Proof.
  intros Hk. unfold u8. change 256 with (2 ^ 8).
  rewrite <- Z.land_ones by lia. change (Z.ones 8) with 255.
  now rewrite <- Z.land_assoc, Hk.
Qed.

Lemma lo_nibble_u8 (opcode : Z) : lo_nibble (u8 opcode) = lo_nibble opcode.
Proof. unfold lo_nibble. now rewrite land_u8. Qed.

Lemma addressing_mode_u8 (opcode : Z) : addressing_mode (u8 opcode) = addressing_mode opcode.
Proof. unfold addressing_mode. now rewrite !land_u8. Qed.

Lemma land_1_cases (z : Z) : Z.land z 0x01 = 0 \/ Z.land z 0x01 = 1.
Proof.
  assert (Z.land z 0x01 = z mod 2) as -> by (apply (Z.land_ones z 1); lia).
  pose proof (Z.mod_pos_bound z 2). lia.
Qed.

Lemma recognised_cases (lo_op : Z) :
  recognised lo_op = true ->
  lo_op = 0x01 \/ lo_op = 0x05 \/ lo_op = 0x06 \/ lo_op = 0x09 \/ lo_op = 0x0D \/ lo_op = 0x0E.
Proof.
  unfold recognised. rewrite !orb_true_iff, !Z.eqb_eq. tauto.
Qed.

Lemma addressing_mode_range (opcode : Z) :
  recognised (lo_nibble opcode) = true -> 0 <= addressing_mode opcode < 8.
Proof.
  intros H. apply recognised_cases in H.
  unfold addressing_mode. unfold lo_nibble in H.
  destruct (land_1_cases (u8 (Z.shiftr (Z.land opcode 0xf0) 4))) as [-> | ->];
    destruct H as [->|[->|[->|[->|[->| ->]]]]]; cbv; split; congruence.
Qed.

(** In each of its eight cases the switch assigns both locals, unless a
    read on the way left the array. *)
Lemma resolve_assigns (mode : Z) (m : Machine) :
  0 <= mode < 8 ->
  (exists a w, resolve mode m = Returns (Some (u16 a), Some w) m /\ (w = 2 \/ w = 3))
  \/ (exists i, resolve mode m = Undefined (OutOfBounds i)).
Proof.
  intros Hm.
  each_bit mode Hm; switch_case;
    rewrite ?read_word_total;
    try match goal with
        | |- context [read_long ?a m] =>
            rewrite (read_long_cases a m); destruct (in_bounds (u16 a + 1))
        end;
    solve [ left; eexists; eexists; split; [reflexivity | cbv; auto]
          | right; eexists; reflexivity ].
Qed.

(** C10. For an opcode whose low nibble is one of 0x01, 0x05, 0x06, 0x09,
    0x0D, 0x0E the addressing mode [((lo_op - 1) >> 1) | (hi_op & 1)] is
    between 0 and 7, so the switch of [normal_dispatch] takes one of its
    cases: whenever it completes both [address] and [width] have a value,
    and [normal_dispatch] never reads an unassigned local. *)
Theorem addressing_mode_assigns (opcode : Z)
    (H : recognised (lo_nibble opcode) = true) :
  0 <= addressing_mode opcode < 8
  /\ forall m,
      (forall r m', resolve (addressing_mode opcode) m = Returns r m' ->
                    exists a w, r = (Some a, Some w))
      /\ normal_dispatch opcode m <> Undefined Unassigned.
Proof.
  pose proof (addressing_mode_range opcode H) as Hrange.
  split; [exact Hrange|]. intros m.
  destruct (resolve_assigns (addressing_mode opcode) m Hrange)
    as [(a & w & Hres & Hw) | (i & Hres)].
  - split.
    + intros r m' Hr. rewrite Hres in Hr. injection Hr as <- _. eauto.
    + unfold normal_dispatch, bind. rewrite addressing_mode_u8, Hres.
      cbn [use ret]. unfold memory_at. rewrite in_bounds_u16.
      unfold on_cpu. discriminate.
  - split.
    + intros r m' Hr. rewrite Hres in Hr. discriminate.
    + unfold normal_dispatch, bind. rewrite addressing_mode_u8, Hres. discriminate.
Qed.

Lemma addressing_mode_assigns_witness :
  recognised (lo_nibble 0x7D) = true /\ 0 <= addressing_mode 0x7D < 8.
Proof.
  split; [reflexivity|].
  exact (proj1 (addressing_mode_assigns 0x7D eq_refl)).
Defined.

(** ** Dispatch *)

Lemma execute_recognised (m : Machine) :
  recognised (lo_nibble (opcode_at m)) = true ->
  execute_instruction m = normal_dispatch (opcode_at m) m.
Proof.
  intros H. unfold execute_instruction, bind, get_cpu.
  rewrite read_word_total. fold (opcode_at m).
  fold (lo_nibble (opcode_at m)). now rewrite H.
Qed.

(** The opcode reaches [normal_dispatch] only through its addressing mode. *)
Lemma normal_dispatch_by_mode (o1 o2 : Z) :
  addressing_mode o1 = addressing_mode o2 -> normal_dispatch o1 = normal_dispatch o2.
Proof.
  intros E. unfold normal_dispatch. rewrite !addressing_mode_u8, E. reflexivity.
Qed.

(** Once the operand address is resolved, [normal_dispatch] adds the operand
    to the accumulator and moves PC on by the width. *)
Lemma normal_dispatch_adc (opcode a w : Z) (m : Machine) :
  resolve (addressing_mode opcode) m = Returns (Some (u16 a), Some w) m ->
  normal_dispatch opcode m
  = Returns tt (set_cpu (set_PC (u16 (PC (cpu m) + w))
                           (adc (memory m (u16 a)) (cpu m))) m).
Proof.
  intros Hres. unfold normal_dispatch, bind.
  rewrite addressing_mode_u8, Hres. cbn [use ret].
  unfold memory_at. rewrite in_bounds_u16. reflexivity.
Qed.

(** C2. A step executes the same instruction for every recognised opcode:
    the immediate-mode opcodes 0x09 (ORA), 0x49 (EOR), 0x69 (ADC), 0xA9 (LDA)
    and 0xE9 (SBC), run with operand 0x0F on accumulator 0xFF and a clear
    status register, all leave the accumulator 0x0E (the sum) and PC
    advanced by 2, where [ora], [eor], [lda] and [sbc] of this CPU give
    0xFF, 0xF0, 0x0F and 0xEF. *)
Theorem dispatch_ignores_opcode :
  Forall (fun opcode =>
            recognised (lo_nibble opcode) = true
            /\ addressing_mode opcode = 4
            /\ execute_instruction (mkMachine (program opcode 0x0F) (at_0600 0xFF 0 0x00))
               = Returns tt (mkMachine (program opcode 0x0F)
                               (mkCPU 0x0602 0x0E 0 0 0x00 0xFF)))
         [0x09; 0x49; 0x69; 0xA9; 0xE9]
  /\ AC (adc 0x0F (at_0600 0xFF 0 0x00)) = 0x0E
  /\ AC (ora 0x0F (at_0600 0xFF 0 0x00)) = 0xFF
  /\ AC (eor 0x0F (at_0600 0xFF 0 0x00)) = 0xF0
  /\ AC (sbc 0x0F (at_0600 0xFF 0 0x00)) = 0xEF
  /\ option_map AC (cpu_after (lda 0x0F (mkMachine (program 0xA9 0x0F) (at_0600 0xFF 0 0x00))))
     = Some 0x0F.
Proof.
  split; [|repeat split].
  repeat constructor.
Qed.

(** C4 as the claim states it fails at opcode 0x00: the step comes back
    with the machine exactly as it was, which is all a caller of the [void]
    member can see. *)
Lemma brk_not_reported : ~ step_reports_unimplemented m_brk.
Proof.
  intros H. destruct (H eq_refl) as [Hsilent _].
  apply Hsilent. reflexivity.
Qed.

(** C4 (amended). For a machine whose opcode at PC has a low nibble outside
    0x01, 0x05, 0x06, 0x09, 0x0D, 0x0E a step returns without reporting
    anything and leaves the whole machine, PC, registers, flags and memory,
    as it was. *)
Theorem unrecognised_is_silent (m : Machine)
    (H : recognised (lo_nibble (opcode_at m)) = false) :
  execute_instruction m = Returns tt m.
Proof.
  unfold execute_instruction, bind, get_cpu.
  rewrite read_word_total. fold (opcode_at m).
  fold (lo_nibble (opcode_at m)). now rewrite H.
Qed.

Lemma unrecognised_is_silent_witness :
  recognised (lo_nibble (opcode_at m_brk)) = false
  /\ execute_instruction m_brk = Returns tt m_brk.
Proof.
  split; [reflexivity|].
  apply (unrecognised_is_silent m_brk). reflexivity.
Defined.

(** * Further properties of the code *)

(** ** Bytes and their bits *)

Lemma testbit_u8_high (z n : Z) : 8 <= n -> Z.testbit (u8 z) n = false.
Proof.
  intros H. unfold u8. change 256 with (2 ^ 8).
  apply Z.mod_pow2_bits_high. lia.
Qed.

(** Two bytes with the same eight bits are equal. *)
Lemma byte_bits_inj (a b : Z) :
  byte a -> byte b ->
  (forall n, 0 <= n < 8 -> Z.testbit a n = Z.testbit b n) -> a = b.
Proof.
  intros Ha Hb H. apply Z.bits_inj'. intros n Hn.
  destruct (Z.lt_ge_cases n 8) as [Hlt | Hge].
  - apply H. lia.
  - rewrite <- (u8_small a), <- (u8_small b) by assumption.
    now rewrite !testbit_u8_high.
Qed.

Lemma u8_bits_inj (a b : Z) :
  (forall n, 0 <= n < 8 -> Z.testbit a n = Z.testbit b n) -> u8 a = u8 b.
Proof.
  intros H. apply byte_bits_inj; try apply u8_range.
  intros n Hn. rewrite !testbit_u8_low by assumption. now apply H.
Qed.

(** Bit 7 of a byte is its sign: set from 128 on. *)
Lemma byte_bit7 (b : Z) : byte b -> Z.testbit b 7 = (128 <=? b).
Proof.
  intros Hb. unfold byte in Hb.
  assert (Z.testbit b 7 = Z.testbit (Z.shiftr b 7) 0) as ->
    by (rewrite Z.shiftr_spec by lia; reflexivity).
  rewrite Z.shiftr_div_pow2 by lia. change (2 ^ 7) with 128.
  destruct (Z.leb_spec 128 b).
  - assert (b / 128 = 1) as -> by (Z.div_mod_to_equations; lia).
    reflexivity.
  - rewrite Z.div_small by lia. reflexivity.
Qed.

(** The carry-in as the code reads it, [SR & Flag::Carry], is bit 0. *)
Lemma land_carry (sr : Z) : Z.land sr Flag.Carry = Z.b2z (Z.testbit sr 0).
Proof.
  assert (Z.land sr Flag.Carry = sr mod 2) as -> by (apply (Z.land_ones sr 1); lia).
  symmetry. apply Z.bit0_mod.
Qed.

(** Bitwise comparison of two status bytes built by the flag primitives. *)
Ltac flag_bits :=
  let n := fresh "n" in
  let Hn := fresh "Hn" in
  apply byte_bits_inj; [apply u8_range | apply u8_range | ];
  intros n Hn;
  repeat (rewrite ?testbit_u8_low, ?Z.land_spec, ?Z.lor_spec, ?Z.lnot_spec,
           ?Z.bits_0 by lia).

Ltac bool_cases :=
  repeat match goal with
         | |- context [Z.testbit ?a ?n] => destruct (Z.testbit a n)
         end;
  try reflexivity; try discriminate.

(** ** The flag primitives compose *)

(** X1. On one mask the last primitive wins and each primitive is
    idempotent: clearing after setting is clearing, setting after clearing
    is setting, and [assign_flags] with [true] or [false] is [set_flags] or
    [clear_flags]. Primitives of one kind commute whatever the masks. *)
Theorem flag_primitives_compose (c : CPU) (f g : Z) :
  clear_flags f (set_flags f c) = clear_flags f c
  /\ set_flags f (clear_flags f c) = set_flags f c
  /\ clear_flags f (clear_flags f c) = clear_flags f c
  /\ set_flags f (set_flags f c) = set_flags f c
  /\ assign_flags f true c = set_flags f c
  /\ assign_flags f false c = clear_flags f c
  /\ set_flags f (set_flags g c) = set_flags g (set_flags f c)
  /\ clear_flags f (clear_flags g c) = clear_flags g (clear_flags f c).
Proof.
  unfold clear_flags, set_flags, assign_flags, set_SR; cbn [PC AC X Y SR SP].
  repeat split; f_equal; flag_bits; bool_cases.
Qed.

(** X2. Setting the flags of one mask and clearing those of a disjoint mask
    can be done in either order: the flag instructions on different flags
    commute. *)
Theorem flag_primitives_commute (c : CPU) (f g : Z)
    (Hdisjoint : Z.land (u8 f) (u8 g) = 0) :
  set_flags f (clear_flags g c) = clear_flags g (set_flags f c).
Proof.
  unfold clear_flags, set_flags, set_SR; cbn [PC AC X Y SR SP].
  f_equal. flag_bits.
  assert (Z.testbit f n && Z.testbit g n = false) as Hfg.
  { rewrite <- (testbit_u8_low f n), <- (testbit_u8_low g n) by assumption.
    rewrite <- Z.land_spec, Hdisjoint. apply Z.bits_0. }
  destruct (Z.testbit f n), (Z.testbit g n), (Z.testbit (SR c) n);
    try reflexivity; discriminate.
Qed.

Lemma flag_primitives_commute_witness :
  Z.land (u8 Flag.Interrupt) (u8 Flag.Carry) = 0
  /\ sei (clc c_demo) = clc (sei c_demo).
Proof.
  split; [reflexivity|].
  apply (flag_primitives_commute c_demo Flag.Interrupt Flag.Carry). reflexivity.
Defined.

(** ** Zero and Negative follow a value *)

Lemma keeps_flags_from_bits (c c' : CPU) :
  (forall n, 0 <= n < 8 -> n <> 1 -> n <> 7 ->
             Z.testbit (SR c') n = Z.testbit (SR c) n) ->
  keeps_flags_but_ZN c c'.
Proof.
  intros H. unfold keeps_flags_but_ZN.
  repeat constructor.
  - rewrite !(flag_bit_testbit _ 0) by lia. apply H; lia.
  - rewrite !(flag_bit_testbit _ 2) by lia. apply H; lia.
  - rewrite !(flag_bit_testbit _ 3) by lia. apply H; lia.
  - rewrite !(flag_bit_testbit _ 4) by lia. apply H; lia.
  - rewrite !(flag_bit_testbit _ 5) by lia. apply H; lia.
  - rewrite !(flag_bit_testbit _ 6) by lia. apply H; lia.
Qed.

(** The pair of updates that ends most instructions. *)
Lemma ZN_update (a : Z) (c : CPU) :
  let c' := update_negative_flag a (update_zero_flag a c) in
  flag_bit (SR c') Flag.Zero = (u8 a =? 0)
  /\ flag_bit (SR c') Flag.Negative = (128 <=? u8 a)
  /\ keeps_flags_but_ZN c c'
  /\ same_registers c c'.
Proof.
  intros c'. subst c'. split; [|split; [|split]].
  - rewrite (flag_bit_testbit _ 1) by lia.
    rewrite SR_update_negative_flag_bit, SR_update_zero_flag_bit by lia. reflexivity.
  - rewrite (flag_bit_testbit _ 7) by lia.
    rewrite SR_update_negative_flag_bit by lia.
    cbn [Z.eqb Pos.eqb]. apply byte_bit7, u8_range.
  - apply keeps_flags_from_bits. intros n Hn H1 H7.
    rewrite SR_update_negative_flag_bit, SR_update_zero_flag_bit by assumption.
    destruct (Z.eqb_spec n 7); [lia|]. destruct (Z.eqb_spec n 1); [lia|]. reflexivity.
  - repeat split.
Qed.

Lemma same_registers_keeps (c c' : CPU) : same_registers c c' -> keeps_PC_X_Y_SP c c'.
Proof. unfold same_registers, keeps_PC_X_Y_SP. tauto. Qed.

(** X3. [update_zero_flag] sets Zero exactly when the value is 0 and
    [update_negative_flag] sets Negative exactly when the value is 128 or
    more (values taken as bytes); each leaves the seven other flags and all
    registers alone, each is idempotent, and the two commute. *)
Theorem update_zero_negative_spec (w v : Z) (c : CPU) :
  flag_bit (SR (update_zero_flag w c)) Flag.Zero = (u8 w =? 0)
  /\ flag_bit (SR (update_negative_flag w c)) Flag.Negative = (128 <=? u8 w)
  /\ flag_bit (SR (update_zero_flag w c)) Flag.Negative = flag_bit (SR c) Flag.Negative
  /\ flag_bit (SR (update_negative_flag w c)) Flag.Zero = flag_bit (SR c) Flag.Zero
  /\ keeps_flags_but_ZN c (update_zero_flag w c)
  /\ keeps_flags_but_ZN c (update_negative_flag w c)
  /\ same_registers c (update_zero_flag w c)
  /\ same_registers c (update_negative_flag w c)
  /\ update_zero_flag w (update_zero_flag w c) = update_zero_flag w c
  /\ update_negative_flag w (update_negative_flag w c) = update_negative_flag w c
  /\ update_zero_flag w (update_negative_flag v c)
     = update_negative_flag v (update_zero_flag w c).
Proof.
  repeat match goal with |- _ /\ _ => split end.
  - rewrite (flag_bit_testbit _ 1), SR_update_zero_flag_bit by lia. reflexivity.
  - rewrite (flag_bit_testbit _ 7), SR_update_negative_flag_bit by lia.
    cbn [Z.eqb Pos.eqb]. apply byte_bit7, u8_range.
  - rewrite !(flag_bit_testbit _ 7), SR_update_zero_flag_bit by lia. reflexivity.
  - rewrite !(flag_bit_testbit _ 1), SR_update_negative_flag_bit by lia. reflexivity.
  - apply keeps_flags_from_bits. intros n Hn H1 H7.
    rewrite SR_update_zero_flag_bit by assumption.
    destruct (Z.eqb_spec n 1); [lia|reflexivity].
  - apply keeps_flags_from_bits. intros n Hn H1 H7.
    rewrite SR_update_negative_flag_bit by assumption.
    destruct (Z.eqb_spec n 7); [lia|reflexivity].
  - repeat split.
  - repeat split.
  - unfold update_zero_flag, assign_flags, set_SR; cbn [PC AC X Y SR SP].
    f_equal. destruct (u8 w =? 0); flag_bits; bool_cases.
  - unfold update_negative_flag, assign_flags, set_SR; cbn [PC AC X Y SR SP].
    f_equal. destruct (to_bool _); flag_bits; bool_cases.
  - unfold update_zero_flag, update_negative_flag.
    generalize (to_bool (Z.land (u8 v) (Z.shiftl 1 7))) (u8 w =? 0). intros bn bz.
    unfold assign_flags, set_SR; cbn [PC AC X Y SR SP]. f_equal.
    apply byte_bits_inj; [apply u8_range | apply u8_range |].
    intros n Hn.
    rewrite !(testbit_u8_low _ n), !Z.lor_spec, !(testbit_u8_low _ n),
      !Z.land_spec, !Z.lnot_spec, !(testbit_u8_low _ n), !Z.lor_spec,
      !(testbit_u8_low _ n), !Z.land_spec, !Z.lnot_spec, !(testbit_u8_low _ n)
      by lia.
    each_bit n Hn; destruct bn, bz, (Z.testbit (SR c) _); reflexivity.
Qed.

(** ** eor and ora *)

(** X4. [eor] replaces the accumulator by its exclusive or with the operand
    (as bytes), sets Zero and Negative from the result, keeps the six other
    flags and PC, X, Y, SP; applying it twice with one operand restores the
    accumulator. *)
Theorem eor_spec (w : Z) (c : CPU) :
  AC (eor w c) = u8 (Z.lxor (AC c) (u8 w))
  /\ flag_bit (SR (eor w c)) Flag.Zero = (AC (eor w c) =? 0)
  /\ flag_bit (SR (eor w c)) Flag.Negative = (128 <=? AC (eor w c))
  /\ keeps_flags_but_ZN c (eor w c)
  /\ keeps_PC_X_Y_SP c (eor w c)
  /\ AC (eor w (eor w c)) = u8 (AC c).
Proof.
  set (a := u8 (Z.lxor (AC c) (u8 w))).
  assert (u8 a = a) as Ha by apply u8_idem.
  destruct (ZN_update a (set_AC a c)) as (Hz & Hneg & Hkeep & Hregs).
  change (update_negative_flag a (update_zero_flag a (set_AC a c))) with (eor w c)
    in Hz, Hneg, Hkeep, Hregs.
  rewrite Ha in Hz, Hneg.
  repeat match goal with |- _ /\ _ => split end; try assumption; try reflexivity.
  - apply same_registers_keeps in Hregs. exact Hregs.
  - change (AC (eor w (eor w c))) with (u8 (Z.lxor a (u8 w))).
    subst a. apply u8_bits_inj. intros n Hn.
    rewrite Z.lxor_spec, testbit_u8_low, Z.lxor_spec by assumption.
    destruct (Z.testbit (AC c) n), (Z.testbit (u8 w) n); reflexivity.
Qed.

Lemma ora_AC_idem (a w : Z) : u8 (Z.lor (u8 (Z.lor a w)) w) = u8 (Z.lor a w).
Proof.
  apply u8_bits_inj. intros n Hn.
  rewrite Z.lor_spec, testbit_u8_low, Z.lor_spec by assumption.
  destruct (Z.testbit a n), (Z.testbit w n); reflexivity.
Qed.

(** Updating Zero and Negative from one value twice is updating them once. *)
Lemma ZN_update_idem (a : Z) (c : CPU) :
  update_negative_flag a (update_zero_flag a
    (update_negative_flag a (update_zero_flag a c)))
  = update_negative_flag a (update_zero_flag a c).
Proof.
  unfold update_zero_flag, update_negative_flag.
  generalize (to_bool (Z.land (u8 a) (Z.shiftl 1 7))) (u8 a =? 0). intros bn bz.
  unfold assign_flags, set_SR; cbn [PC AC X Y SR SP]. f_equal.
  apply byte_bits_inj; [apply u8_range | apply u8_range |].
  intros n Hn.
  repeat (rewrite ?(testbit_u8_low _ n), ?Z.lor_spec, ?Z.land_spec, ?Z.lnot_spec by lia).
  each_bit n Hn; destruct bn, bz, (Z.testbit (SR c) _); reflexivity.
Qed.

(** X5. [ora] replaces the accumulator by its inclusive or with the operand
    (as bytes), sets Zero and Negative from the result, keeps the six other
    flags and PC, X, Y, SP; it is idempotent: a second [ora] with the same
    operand changes nothing. *)
Theorem ora_spec (w : Z) (c : CPU) :
  AC (ora w c) = u8 (Z.lor (AC c) (u8 w))
  /\ flag_bit (SR (ora w c)) Flag.Zero = (AC (ora w c) =? 0)
  /\ flag_bit (SR (ora w c)) Flag.Negative = (128 <=? AC (ora w c))
  /\ keeps_flags_but_ZN c (ora w c)
  /\ keeps_PC_X_Y_SP c (ora w c)
  /\ ora w (ora w c) = ora w c.
Proof.
  set (a := u8 (Z.lor (AC c) (u8 w))).
  assert (u8 a = a) as Ha by apply u8_idem.
  destruct (ZN_update a (set_AC a c)) as (Hz & Hneg & Hkeep & Hregs).
  change (update_negative_flag a (update_zero_flag a (set_AC a c))) with (ora w c)
    in Hz, Hneg, Hkeep, Hregs.
  rewrite Ha in Hz, Hneg.
  repeat match goal with |- _ /\ _ => split end; try assumption; try reflexivity.
  - apply same_registers_keeps in Hregs. exact Hregs.
  - change (ora w c) with (update_negative_flag a (update_zero_flag a (set_AC a c))).
    change (ora w (update_negative_flag a (update_zero_flag a (set_AC a c))))
      with (let a' := u8 (Z.lor a (u8 w)) in
            update_negative_flag a' (update_zero_flag a'
              (set_AC a' (update_negative_flag a (update_zero_flag a (set_AC a c)))))).
    assert (u8 (Z.lor a (u8 w)) = a) as -> by (subst a; apply ora_AC_idem).
    cbv zeta.
    change (set_AC a (update_negative_flag a (update_zero_flag a (set_AC a c))))
      with (update_negative_flag a (update_zero_flag a (set_AC a c))).
    apply ZN_update_idem.
Qed.

(** ** adc and sbc *)

Lemma carry_in (sr : Z) : Z.land sr Flag.Carry = Z.b2z (flag_bit sr Flag.Carry).
Proof. rewrite land_carry, (flag_bit_testbit _ 0) by lia. reflexivity. Qed.

(** X6. [adc] adds the operand and the Carry flag to the accumulator, [sbc]
    subtracts the operand and the inverted Carry flag, both modulo 256; both
    set Zero and Negative from the new accumulator and keep the six other
    flags and PC, X, Y, SP. *)
Theorem adc_sbc_spec (w : Z) (c : CPU) :
  (AC (adc w c) = u8 (AC c + u8 w + Z.b2z (flag_bit (SR c) Flag.Carry))
   /\ flag_bit (SR (adc w c)) Flag.Zero = (AC (adc w c) =? 0)
   /\ flag_bit (SR (adc w c)) Flag.Negative = (128 <=? AC (adc w c))
   /\ keeps_flags_but_ZN c (adc w c)
   /\ keeps_PC_X_Y_SP c (adc w c))
  /\ (AC (sbc w c) = u8 (AC c - u8 w - Z.b2z (negb (flag_bit (SR c) Flag.Carry)))
      /\ flag_bit (SR (sbc w c)) Flag.Zero = (AC (sbc w c) =? 0)
      /\ flag_bit (SR (sbc w c)) Flag.Negative = (128 <=? AC (sbc w c))
      /\ keeps_flags_but_ZN c (sbc w c)
      /\ keeps_PC_X_Y_SP c (sbc w c)).
Proof.
  split.
  - set (a := u8 (AC c + (u8 w + Z.land (SR c) Flag.Carry))).
    assert (u8 a = a) as Ha by apply u8_idem.
    destruct (ZN_update a (set_AC a c)) as (Hz & Hneg & Hkeep & Hregs).
    change (update_negative_flag a (update_zero_flag a (set_AC a c))) with (adc w c)
      in Hz, Hneg, Hkeep, Hregs.
    rewrite Ha in Hz, Hneg.
    repeat match goal with |- _ /\ _ => split end; try assumption.
    + change (AC (adc w c)) with a. subst a. rewrite carry_in. f_equal. lia.
    + apply same_registers_keeps in Hregs. exact Hregs.
  - set (a := u8 (AC c - (u8 w + (1 - Z.land (SR c) Flag.Carry)))).
    assert (u8 a = a) as Ha by apply u8_idem.
    destruct (ZN_update a (set_AC a c)) as (Hz & Hneg & Hkeep & Hregs).
    change (update_negative_flag a (update_zero_flag a (set_AC a c))) with (sbc w c)
      in Hz, Hneg, Hkeep, Hregs.
    rewrite Ha in Hz, Hneg.
    repeat match goal with |- _ /\ _ => split end; try assumption.
    + change (AC (sbc w c)) with a. subst a. rewrite carry_in. f_equal.
      destruct (flag_bit (SR c) Flag.Carry); cbn [negb Z.b2z]; lia.
    + apply same_registers_keeps in Hregs. exact Hregs.
Qed.

Lemma clc_carry (c : CPU) : Z.land (SR (clc c)) Flag.Carry = 0.
Proof.
  rewrite land_carry. unfold clc. rewrite SR_clear_flags_bit by lia.
  change (Z.testbit Flag.Carry 0) with true. now rewrite andb_false_r.
Qed.

Lemma sec_carry (c : CPU) : Z.land (SR (sec c)) Flag.Carry = 1.
Proof.
  rewrite land_carry. unfold sec. rewrite SR_set_flags_bit by lia.
  change (Z.testbit Flag.Carry 0) with true. now rewrite orb_true_r.
Qed.

(** X7. With the carry prepared the usual way the arithmetic is exact: CLC
    then ADC adds the operand, SEC then SBC subtracts it (modulo 256), and
    subtracting after adding the same operand gives the accumulator back. *)
Theorem clc_adc_sec_sbc (w : Z) (c : CPU) :
  AC (adc w (clc c)) = u8 (AC c + u8 w)
  /\ AC (sbc w (sec c)) = u8 (AC c - u8 w)
  /\ AC (sbc w (sec (adc w (clc c)))) = u8 (AC c).
Proof.
  assert (forall d, AC (adc w (clc d)) = u8 (AC d + u8 w)) as Hadd.
  { intros d. rewrite AC_adc, clc_carry. change (AC (clc d)) with (AC d).
    f_equal. lia. }
  assert (forall d, AC (sbc w (sec d)) = u8 (AC d - u8 w)) as Hsub.
  { intros d.
    change (AC (sbc w (sec d)))
      with (u8 (AC d - (u8 w + (1 - Z.land (SR (sec d)) Flag.Carry)))).
    rewrite sec_carry. f_equal. lia. }
  split; [apply Hadd | split; [apply Hsub|]].
  rewrite Hsub, Hadd. unfold u8.
  rewrite Zminus_mod_idemp_l. f_equal. lia.
Qed.

(** ** increment and decrement *)

Lemma bind_returns {A B} (x : M A) (k : A -> M B) (m m' : Machine) (a : A) :
  x m = Returns a m' -> bind x k m = k a m'.
Proof. intros H. unfold bind. now rewrite H. Qed.

Lemma load_in_bounds (i v : Z) (m m' : Machine) :
  load (Cell i) m = Returns v m' -> in_bounds i = true.
Proof.
  unfold load, memory_at. destruct (in_bounds i); [reflexivity | discriminate].
Qed.

(** Writing a value through a reference and setting Zero and Negative from
    what the reference then holds: the common tail of [increment] and
    [decrement]. *)
Lemma write_back_ZN (r : word_ref) (x : Z) (m : Machine) :
  r <> RegSR -> (forall i, r = Cell i -> in_bounds i = true) ->
  exists m',
    (store r x ;;
     v <- load r ;; on_cpu (update_zero_flag v) ;;
     v <- load r ;; on_cpu (update_negative_flag v)) m = Returns tt m'
    /\ load r m' = Returns x m'
    /\ cpu m' = update_negative_flag x (update_zero_flag x (set_reg r x (cpu m)))
    /\ SR (set_reg r x (cpu m)) = SR (cpu m).
Proof.
  intros Hr Hi.
  destruct r as [ | | | | | i]; try congruence.
  1-4: eexists; split;
    [ unfold load, store, bind, get_cpu, on_cpu, ret;
      cbn [cpu set_cpu AC X Y SP set_AC set_X set_Y set_SP]; reflexivity
    | split; [reflexivity | split; reflexivity] ].
  specialize (Hi i eq_refl).
  exists (set_cpu (update_negative_flag x (update_zero_flag x (cpu m)))
            (set_memory (fun j => if j =? i then x else memory m j) m)).
  split; [|split; [|split; reflexivity]].
  - unfold load, store, bind, memory_at, on_cpu.
    rewrite Hi. cbn [memory cpu set_memory set_cpu].
    rewrite ?Hi, Z.eqb_refl. reflexivity.
  - unfold load, memory_at. rewrite Hi. cbn [memory set_cpu set_memory].
    rewrite Z.eqb_refl. reflexivity.
Qed.

Lemma reference_in_bounds (r : word_ref) (v : Z) (m : Machine) :
  load r m = Returns v m -> forall i, r = Cell i -> in_bounds i = true.
Proof. intros H i ->. exact (load_in_bounds i v m m H). Qed.

Lemma increment_effect (r : word_ref) (v : Z) (m : Machine) :
  r <> RegSR -> load r m = Returns v m ->
  exists m',
    increment r m = Returns tt m'
    /\ load r m' = Returns (u8 (v + 1)) m'
    /\ cpu m' = update_negative_flag (u8 (v + 1))
                  (update_zero_flag (u8 (v + 1)) (set_reg r (u8 (v + 1)) (cpu m)))
    /\ SR (set_reg r (u8 (v + 1)) (cpu m)) = SR (cpu m).
Proof.
  intros Hr Hload.
  destruct (write_back_ZN r (u8 (v + 1)) m Hr (reference_in_bounds r v m Hload))
    as (m' & Hrun & Hrest).
  exists m'. split; [|exact Hrest].
  unfold increment. rewrite (bind_returns _ _ _ _ _ Hload). exact Hrun.
Qed.

Lemma decrement_effect (r : word_ref) (v : Z) (m : Machine) :
  r <> RegSR -> load r m = Returns v m ->
  exists m',
    decrement r m = Returns tt m'
    /\ load r m' = Returns (u8 (v - 1)) m'
    /\ cpu m' = update_negative_flag (u8 (v - 1))
                  (update_zero_flag (u8 (v - 1)) (set_reg r (u8 (v - 1)) (cpu m)))
    /\ SR (set_reg r (u8 (v - 1)) (cpu m)) = SR (cpu m).
Proof.
  intros Hr Hload.
  destruct (write_back_ZN r (u8 (v - 1)) m Hr (reference_in_bounds r v m Hload))
    as (m' & Hrun & Hrest).
  exists m'. split; [|exact Hrest].
  unfold decrement. rewrite (bind_returns _ _ _ _ _ Hload). exact Hrun.
Qed.

(** The flags after such a write-back, in terms of the state before. *)
Lemma write_back_flags (x : Z) (c0 c1 c' : CPU) :
  c' = update_negative_flag x (update_zero_flag x c1) -> SR c1 = SR c0 ->
  flag_bit (SR c') Flag.Zero = (u8 x =? 0)
  /\ flag_bit (SR c') Flag.Negative = (128 <=? u8 x)
  /\ keeps_flags_but_ZN c0 c'.
Proof.
  intros -> HSR.
  destruct (ZN_update x c1) as (Hz & Hneg & Hkeep & _).
  split; [exact Hz | split; [exact Hneg|]].
  unfold keeps_flags_but_ZN in *. rewrite <- HSR. exact Hkeep.
Qed.

(** X8. [increment] and [decrement], on a register or memory cell other
    than the status register holding [v], write back [v + 1] and [v - 1]
    modulo 256 (0xFF + 1 wraps to 0, 0 - 1 to 0xFF), set Zero and Negative
    from the value written back, and keep the six other flags. *)
Theorem increment_decrement_spec (m : Machine) (r : word_ref) (v : Z)
    (Hr : r <> RegSR) (Hload : load r m = Returns v m) :
  (exists m',
      increment r m = Returns tt m'
      /\ load r m' = Returns ((v + 1) mod 256) m'
      /\ flag_bit (SR (cpu m')) Flag.Zero = ((v + 1) mod 256 =? 0)
      /\ flag_bit (SR (cpu m')) Flag.Negative = (128 <=? (v + 1) mod 256)
      /\ keeps_flags_but_ZN (cpu m) (cpu m'))
  /\ (exists m',
      decrement r m = Returns tt m'
      /\ load r m' = Returns ((v - 1) mod 256) m'
      /\ flag_bit (SR (cpu m')) Flag.Zero = ((v - 1) mod 256 =? 0)
      /\ flag_bit (SR (cpu m')) Flag.Negative = (128 <=? (v - 1) mod 256)
      /\ keeps_flags_but_ZN (cpu m) (cpu m')).
Proof.
  split.
  - destruct (increment_effect r v m Hr Hload) as (m' & Hrun & Hval & Hcpu & HSR).
    destruct (write_back_flags _ (cpu m) _ _ Hcpu HSR) as (Hz & Hneg & Hkeep).
    rewrite u8_idem in Hz, Hneg.
    exists m'. repeat split; assumption.
  - destruct (decrement_effect r v m Hr Hload) as (m' & Hrun & Hval & Hcpu & HSR).
    destruct (write_back_flags _ (cpu m) _ _ Hcpu HSR) as (Hz & Hneg & Hkeep).
    rewrite u8_idem in Hz, Hneg.
    exists m'. repeat split; assumption.
Qed.

Lemma increment_decrement_spec_witness :
  exists m',
    inx (mkMachine blank c_demo) = Returns tt m'
    /\ load RegX m' = Returns 0x00 m'
    /\ flag_bit (SR (cpu m')) Flag.Zero = true
    /\ flag_bit (SR (cpu m')) Flag.Negative = false.
Proof.
  destruct (increment_decrement_spec (mkMachine blank c_demo) RegX 0xFF
              ltac:(discriminate) eq_refl)
    as ((m' & Hrun & Hval & Hz & Hneg & _) & _).
  exists m'. repeat split; assumption.
Defined.

(** X9. [decrement] undoes [increment] and [increment] undoes [decrement]:
    after both, in either order, the register or cell holds what it held
    (as a byte). *)
Theorem increment_decrement_round_trip (m : Machine) (r : word_ref) (v : Z)
    (Hr : r <> RegSR) (Hload : load r m = Returns v m) :
  (exists m1 m2,
      increment r m = Returns tt m1 /\ decrement r m1 = Returns tt m2
      /\ load r m2 = Returns (v mod 256) m2)
  /\ (exists m1 m2,
      decrement r m = Returns tt m1 /\ increment r m1 = Returns tt m2
      /\ load r m2 = Returns (v mod 256) m2).
Proof.
  split.
  - destruct (increment_effect r v m Hr Hload) as (m1 & Hrun1 & Hval1 & _).
    destruct (decrement_effect r _ m1 Hr Hval1) as (m2 & Hrun2 & Hval2 & _).
    exists m1, m2. split; [exact Hrun1 | split; [exact Hrun2|]].
    rewrite Hval2. f_equal. unfold u8. rewrite Zminus_mod_idemp_l. f_equal. lia.
  - destruct (decrement_effect r v m Hr Hload) as (m1 & Hrun1 & Hval1 & _).
    destruct (increment_effect r _ m1 Hr Hval1) as (m2 & Hrun2 & Hval2 & _).
    exists m1, m2. split; [exact Hrun1 | split; [exact Hrun2|]].
    rewrite Hval2. f_equal. unfold u8. rewrite Zplus_mod_idemp_l. f_equal. lia.
Qed.

Lemma increment_decrement_round_trip_witness :
  exists m1 m2,
    inx (mkMachine blank c_demo) = Returns tt m1 /\ dex m1 = Returns tt m2
    /\ load RegX m2 = Returns 0xFF m2.
Proof.
  destruct (increment_decrement_round_trip (mkMachine blank c_demo) RegX 0xFF
              ltac:(discriminate) eq_refl)
    as ((m1 & m2 & H1 & H2 & H3) & _).
  exists m1, m2. repeat split; assumption.
Defined.

(** ** Registers stay bytes *)

Ltac cpu_fields :=
  unfold eor, ora, adc, sbc, txs, clc, cld, cli, clv, sec, sed, sei,
    update_zero_flag, update_negative_flag, clear_flags, set_flags, assign_flags,
    set_reg, set_PC, set_AC, set_X, set_Y, set_SR, set_SP;
  cbn [PC AC X Y SR SP].

Ltac bytes :=
  unfold wf_cpu, byte in *; cbn [PC AC X Y SR SP];
  repeat match goal with
         | |- 0 <= u8 _ < 256 => apply u8_range
         | |- 0 <= u16 _ < 65536 => apply u16_range
         | H : _ /\ _ |- _ => destruct H
         | |- _ /\ _ => split
         end; try assumption.

(** X10. Every instruction that works on the CPU's own fields keeps the CPU
    well-formed: starting from 8-bit registers and a 16-bit PC, the
    registers are 8-bit values and PC a 16-bit value afterwards. *)
Theorem cpu_instructions_keep_wf (c : CPU) (w flags : Z) (value : bool)
    (Hwf : wf_cpu c) :
  wf_cpu (nop c) /\ wf_cpu (eor w c) /\ wf_cpu (ora w c)
  /\ wf_cpu (adc w c) /\ wf_cpu (sbc w c) /\ wf_cpu (txs c)
  /\ wf_cpu (clc c) /\ wf_cpu (cld c) /\ wf_cpu (cli c) /\ wf_cpu (clv c)
  /\ wf_cpu (sec c) /\ wf_cpu (sed c) /\ wf_cpu (sei c)
  /\ wf_cpu (clear_flags flags c) /\ wf_cpu (set_flags flags c)
  /\ wf_cpu (assign_flags flags value c)
  /\ wf_cpu (update_zero_flag w c) /\ wf_cpu (update_negative_flag w c).
Proof.
  split; [exact Hwf|].
  repeat match goal with |- wf_cpu _ /\ _ => split end; cpu_fields; bytes.
Qed.

Lemma cpu_instructions_keep_wf_witness :
  wf_cpu c_demo /\ wf_cpu (sbc 0x3D c_demo).
Proof.
  assert (wf_cpu c_demo) as H by (unfold wf_cpu, byte; cbn; lia).
  split; [exact H|].
  exact (proj1 (proj2 (proj2 (proj2 (proj2
           (cpu_instructions_keep_wf c_demo 0x3D 0 false H)))))).
Defined.

Lemma wf_memory_update (f : Z -> Z) (i x : Z) :
  wf_memory f -> byte x -> wf_memory (fun j => if j =? i then x else f j).
Proof.
  intros Hf Hx j Hj. destruct (j =? i); [exact Hx | now apply Hf].
Qed.

(** After a call that returned, a well-formed machine. *)
Ltac wf_after H :=
  unfold increment, decrement, transfer, rol, load, store, bind, memory_at,
    get_cpu, on_cpu, ret in H;
  cbn [cpu memory set_cpu set_memory] in H;
  repeat match type of H with
         | context [in_bounds ?i] => destruct (in_bounds i); try discriminate H
         end;
  cbn [cpu memory set_cpu set_memory] in H;
  injection H as <-;
  unfold wf_machine; cbn [cpu memory set_cpu set_memory];
  split;
  [ first [assumption | apply wf_memory_update; [assumption | apply u8_range]]
  | cpu_fields; bytes ].

(** X11. The members that write through a [Word&], [increment],
    [decrement], [transfer] and [rol], keep the machine well-formed whatever
    the reference is (any register or memory cell): what they write is
    always reduced to 8 bits. *)
Theorem reference_instructions_keep_wf (m m' : Machine) (r : word_ref) (src : Z)
    (Hwf : wf_machine m) :
  (increment r m = Returns tt m' -> wf_machine m')
  /\ (decrement r m = Returns tt m' -> wf_machine m')
  /\ (transfer r src m = Returns tt m' -> wf_machine m')
  /\ (rol r m = Returns tt m' -> wf_machine m').
Proof.
  destruct Hwf as [Hmem Hcpu].
  split; [|split; [|split]]; intros H; destruct r; wf_after H.
Qed.

Lemma wf_blank : wf_machine (mkMachine blank c_demo).
Proof.
  split.
  - intros i _. cbn [memory]. unfold blank, byte. lia.
  - unfold wf_cpu, byte, c_demo. cbn [cpu PC AC X Y SR SP]. lia.
Qed.

Lemma reference_instructions_keep_wf_witness :
  wf_machine (mkMachine blank c_demo)
  /\ exists m', inx (mkMachine blank c_demo) = Returns tt m' /\ wf_machine m'.
Proof.
  split; [exact wf_blank|].
  eexists. split; [reflexivity|].
  apply (proj1 (reference_instructions_keep_wf (mkMachine blank c_demo) _ RegX 0 wf_blank)).
  reflexivity.
Defined.

(** ** Reading memory *)

Lemma u16_period (z : Z) : u16 (z + 65536) = u16 z.
Proof. unfold u16. rewrite <- (Z.mul_1_l 65536) at 1. apply Z_mod_plus_full. Qed.

(** X12. [read_word] never indexes outside the memory array and changes
    nothing: it returns the cell at the address modulo 65536, so the
    argument PC + 1 at PC = 0xFFFF reads cell 0. *)
Theorem read_word_wraps (address : Z) (m : Machine) :
  read_word address m = Returns (memory m (address mod 65536)) m
  /\ read_word (address + 65536) m = read_word address m
  /\ read_word (0xFFFF + 1) m = Returns (memory m 0) m.
Proof.
  split; [apply read_word_total|]. split; [|reflexivity].
  now rewrite !read_word_total, u16_period.
Qed.

(** A high and a low byte combined with shift and or. *)
Lemma byte_pair (lo hi : Z) :
  byte lo -> byte hi -> Z.lor (Z.shiftl hi 8) lo = lo + 256 * hi.
Proof.
  intros Hlo Hhi.
  assert (Z.land (Z.shiftl hi 8) lo = 0) as Hdisjoint.
  { apply Z.bits_inj'. intros n Hn. rewrite Z.land_spec, Z.bits_0.
    destruct (Z.lt_ge_cases n 8).
    - rewrite Z.shiftl_spec_low by assumption. reflexivity.
    - rewrite <- (u8_small lo) by assumption.
      rewrite testbit_u8_high by assumption. apply andb_false_r. }
  rewrite <- Z.lxor_lor, <- Z.add_nocarry_lxor by assumption.
  rewrite Z.shiftl_mul_pow2 by lia. change (2 ^ 8) with 256. lia.
Qed.

(** X13. Below the last address, on a memory of bytes, [read_long] returns
    the little-endian 16-bit value of the two cells: the low byte at the
    address plus 256 times the high byte after it, a value below 65536, and
    the machine is unchanged. *)
Theorem read_long_little_endian (address : Z) (m : Machine)
    (Ha : 0 <= address < 0xFFFF) (Hm : wf_memory (memory m)) :
  read_long address m
  = Returns (memory m address + 256 * memory m (address + 1)) m
  /\ 0 <= memory m address + 256 * memory m (address + 1) < 65536.
Proof.
  pose proof (Hm address ltac:(lia)) as Hlo.
  pose proof (Hm (address + 1) ltac:(lia)) as Hhi.
  assert (0 <= memory m address + 256 * memory m (address + 1) < 65536) as Hrange
    by (unfold byte in *; lia).
  split; [|exact Hrange].
  rewrite read_long_below_top by assumption.
  rewrite (u16_small (memory m (address + 1))) by (unfold byte in Hhi; lia).
  rewrite byte_pair by assumption.
  now rewrite u16_small.
Qed.

Lemma read_long_little_endian_witness :
  read_long 0x0600 (mkMachine (program 0x34 0x12) c_demo)
  = Returns 0x1234 (mkMachine (program 0x34 0x12) c_demo).
Proof.
  refine (proj1 (read_long_little_endian 0x0600 (mkMachine (program 0x34 0x12) c_demo)
                   ltac:(lia) _)).
  intros i _. unfold program, byte. cbn [memory].
  destruct (i =? 0x0600); [lia|]. destruct (i =? 0x0601); lia.
Defined.

(** ** The decoding table *)

(** The parity of the high nibble is bit 4 of the opcode. *)
Lemma hi_parity (opcode : Z) :
  Z.land (u8 (Z.shiftr (Z.land opcode 0xf0) 4)) 0x01 = Z.b2z (Z.testbit opcode 4).
Proof.
  pose proof (land_carry (u8 (Z.shiftr (Z.land opcode 0xf0) 4))) as E.
  change Flag.Carry with 0x01 in E. rewrite E. f_equal.
  rewrite testbit_u8_low, Z.shiftr_spec, Z.land_spec by lia.
  change (Z.testbit 0xf0 (0 + 4)) with true. apply andb_true_r.
Qed.

(** X14. The addressing mode follows the table in the comment of
    [normal_dispatch]: for a recognised low nibble it is the even mode of
    that nibble's pair (0 for 01, 2 for 05 and 06, 4 for 09, 6 for 0d and
    0e) plus the parity of the high nibble, which is bit 4 of the opcode. *)
Theorem addressing_mode_table (opcode : Z)
    (H : recognised (lo_nibble opcode) = true) :
  addressing_mode opcode = mode_pair (lo_nibble opcode) + Z.b2z (Z.testbit opcode 4).
Proof.
  apply recognised_cases in H.
  unfold addressing_mode. rewrite hi_parity. unfold lo_nibble in *.
  destruct (Z.testbit opcode 4);
    destruct H as [->|[->|[->|[->|[->| ->]]]]]; reflexivity.
Qed.

Lemma addressing_mode_table_witness :
  recognised (lo_nibble 0xBD) = true /\ addressing_mode 0xBD = 6 + 1.
Proof.
  split; [reflexivity|].
  exact (addressing_mode_table 0xBD eq_refl).
Defined.

Lemma lo_nibble_range (opcode : Z) : 0 <= lo_nibble opcode < 16.
Proof.
  unfold lo_nibble.
  assert (Z.land opcode 0x0f = opcode mod 16) as -> by (apply (Z.land_ones opcode 4); lia).
  pose proof (Z.mod_pos_bound opcode 16 ltac:(lia)).
  rewrite u8_small; lia.
Qed.

(** Every low nibble but 0 selects one of the eight cases. *)
Lemma addressing_mode_nonzero_nibble (opcode : Z) :
  lo_nibble opcode <> 0 -> 0 <= addressing_mode opcode < 8.
Proof.
  intros Hlo. pose proof (lo_nibble_range opcode) as Hr.
  unfold addressing_mode. rewrite hi_parity. unfold lo_nibble in *.
  set (lo := u8 (Z.land opcode 0x0f)) in *.
  assert (lo = 1 \/ lo = 2 \/ lo = 3 \/ lo = 4 \/ lo = 5 \/ lo = 6 \/ lo = 7
          \/ lo = 8 \/ lo = 9 \/ lo = 10 \/ lo = 11 \/ lo = 12 \/ lo = 13
          \/ lo = 14 \/ lo = 15) as C by lia.
  clearbody lo.
  destruct (Z.testbit opcode 4);
    repeat (destruct C as [-> | C]); try subst lo; cbv; split; congruence.
Qed.

Lemma addressing_mode_zero_nibble (opcode : Z) :
  lo_nibble opcode = 0 -> addressing_mode opcode = 255.
Proof.
  intros Hlo. unfold addressing_mode. rewrite hi_parity.
  unfold lo_nibble in Hlo. rewrite Hlo.
  destruct (Z.testbit opcode 4); reflexivity.
Qed.

(** X15. [normal_dispatch] reads its unassigned locals exactly for the
    opcodes whose low nibble is 0: there the addressing mode comes out as
    255 and no case of the switch is taken; every other low nibble selects
    one of the eight cases. *)
Theorem normal_dispatch_unassigned_iff (opcode : Z) (m : Machine) :
  normal_dispatch opcode m = Undefined Unassigned <-> lo_nibble opcode = 0.
Proof.
  split.
  - intros H. destruct (Z.eq_dec (lo_nibble opcode) 0) as [E | Hne]; [exact E|].
    exfalso.
    destruct (resolve_assigns (addressing_mode opcode) m
                (addressing_mode_nonzero_nibble opcode Hne))
      as [(a & w & Hres & _) | (i & Hres)].
    + rewrite (normal_dispatch_adc opcode a w m Hres) in H. discriminate.
    + unfold normal_dispatch, bind in H.
      rewrite addressing_mode_u8, Hres in H. discriminate.
  - intros Hlo. unfold normal_dispatch.
    rewrite addressing_mode_u8, (addressing_mode_zero_nibble opcode Hlo).
    reflexivity.
Qed.

(** ** A step as a whole *)

(** [read_long] leaves the array at the last address and nowhere else. *)
Lemma read_long_top_cases (address : Z) (m : Machine) :
  read_long address m
  = if u16 address =? 0xFFFF
    then Undefined (OutOfBounds 65536)
    else Returns (u16 (Z.lor (Z.shiftl (u16 (memory m (u16 address + 1))) 8)
                             (memory m (u16 address)))) m.
Proof.
  rewrite read_long_cases. pose proof (u16_range address) as Hr.
  destruct (Z.eqb_spec (u16 address) 0xFFFF) as [E | Hne].
  - rewrite E. reflexivity.
  - assert (in_bounds (u16 address + 1) = true) as -> by (apply in_bounds_iff; lia).
    reflexivity.
Qed.

(** What the switch leaves: an address of 16 bits and the width of the
    mode, unless a 16-bit read started at the last address. *)
Lemma resolve_outcomes (mode : Z) (m : Machine) :
  0 <= mode < 8 ->
  (exists a, resolve mode m = Returns (Some (u16 a), Some (width_of_mode mode)) m)
  \/ resolve mode m = Undefined (OutOfBounds 65536).
Proof.
  intros Hm.
  each_bit mode Hm; switch_case;
    rewrite ?read_word_total;
    try match goal with
        | |- context [read_long ?a m] =>
            rewrite (read_long_top_cases a m); destruct (u16 a =? 0xFFFF)
        end;
    solve [ left; eexists; reflexivity | right; reflexivity ].
Qed.

Lemma execute_cases (m : Machine) :
  execute_instruction m
  = if recognised (lo_nibble (opcode_at m))
    then normal_dispatch (opcode_at m) m
    else Returns tt m.
Proof.
  unfold execute_instruction, bind, get_cpu.
  rewrite read_word_total. unfold lo_nibble, opcode_at. cbv zeta.
  destruct (recognised _); reflexivity.
Qed.

(** The three ways a step can go. *)
Lemma step_shape (m : Machine) :
  (recognised (lo_nibble (opcode_at m)) = false /\ execute_instruction m = Returns tt m)
  \/ (recognised (lo_nibble (opcode_at m)) = true
      /\ exists a,
          execute_instruction m
          = Returns tt (set_cpu (set_PC (u16 (PC (cpu m)
                                              + width_of_mode (addressing_mode (opcode_at m))))
                                   (adc (memory m (u16 a)) (cpu m))) m))
  \/ (recognised (lo_nibble (opcode_at m)) = true
      /\ execute_instruction m = Undefined (OutOfBounds 65536)).
Proof.
  rewrite execute_cases.
  destruct (recognised (lo_nibble (opcode_at m))) eqn:Hrec; [|left; auto].
  right.
  destruct (resolve_outcomes (addressing_mode (opcode_at m)) m
              (addressing_mode_range _ Hrec)) as [(a & Hres) | Hres].
  - left. split; [reflexivity|]. exists a.
    apply normal_dispatch_adc. exact Hres.
  - right. split; [reflexivity|].
    unfold normal_dispatch, bind. rewrite addressing_mode_u8, Hres. reflexivity.
Qed.

(** X16. A step either returns or indexes the memory array at 65536, one
    past its end; it has no other undefined behaviour: no other index
    leaves the array, and no unassigned local is read. *)
Theorem step_outcomes (m : Machine) :
  (exists m', execute_instruction m = Returns tt m')
  \/ execute_instruction m = Undefined (OutOfBounds 65536).
Proof.
  destruct (step_shape m) as [[_ H] | [[_ [a H]] | [_ H]]]; eauto.
Qed.

(** X17. A step that returns leaves memory, X, Y and SP as they were and
    changes no flag other than Zero and Negative: only PC, the accumulator
    and those two flags can differ. *)
Theorem step_frame (m m' : Machine)
    (H : execute_instruction m = Returns tt m') :
  memory m' = memory m
  /\ X (cpu m') = X (cpu m) /\ Y (cpu m') = Y (cpu m) /\ SP (cpu m') = SP (cpu m)
  /\ keeps_flags_but_ZN (cpu m) (cpu m').
Proof.
  destruct (step_shape m) as [[_ E] | [[_ [a E]] | [_ E]]];
    rewrite E in H; try discriminate H; injection H as <-.
  - repeat split. unfold keeps_flags_but_ZN. repeat constructor.
  - repeat split. cbn [cpu set_cpu].
    apply keeps_flags_from_bits. intros n Hn H1 H7.
    change (SR (set_PC _ (adc (memory m (u16 a)) (cpu m))))
      with (SR (adc (memory m (u16 a)) (cpu m))).
    rewrite SR_adc_bit by assumption.
    destruct (Z.eqb_spec n 7); [lia|]. destruct (Z.eqb_spec n 1); [lia|]. reflexivity.
Qed.

Lemma step_frame_witness :
  exists m',
    execute_instruction (mkMachine (program 0x69 0x01) c_demo) = Returns tt m'
    /\ X (cpu m') = 0xFF /\ SP (cpu m') = 0xFD.
Proof.
  eexists. split; [vm_compute; reflexivity|].
  destruct (step_frame (mkMachine (program 0x69 0x01) c_demo) _ eq_refl)
    as (_ & Hx & _ & Hsp & _).
  split; [exact Hx | exact Hsp].
Defined.

(** X18. A step at a recognised opcode that returns has advanced PC, modulo
    65536, by the width of the opcode's addressing mode: 2 for the modes 0
    to 4, 3 for the modes 5 to 7 (absolute and absolute indexed). *)
Theorem step_advances_pc (m m' : Machine)
    (Hrec : recognised (lo_nibble (opcode_at m)) = true)
    (H : execute_instruction m = Returns tt m') :
  PC (cpu m')
  = (PC (cpu m) + (if addressing_mode (opcode_at m) <? 5 then 2 else 3)) mod 65536.
Proof.
  destruct (step_shape m) as [[Hun _] | [[_ [a E]] | [_ E]]].
  - congruence.
  - rewrite E in H. injection H as <-. reflexivity.
  - rewrite E in H. discriminate H.
Qed.

Lemma step_advances_pc_witness :
  exists m',
    execute_instruction (mkMachine (program 0x6D 0x00) c_demo) = Returns tt m'
    /\ PC (cpu m') = 0x0603.
Proof.
  eexists. split; [vm_compute; reflexivity|].
  exact (step_advances_pc (mkMachine (program 0x6D 0x00) c_demo) _ eq_refl eq_refl).
Defined.



(** ** Where a step is undefined *)

Lemma next_is_top (pc : Z) : 0 <= pc < 65536 -> (u16 (pc + 1) = 0xFFFF <-> pc = 0xFFFE).
Proof.
  intros Hpc. destruct (Z.eq_dec pc 65535) as [-> | Hne].
  - split; [vm_compute; discriminate | lia].
  - rewrite u16_small by lia. lia.
Qed.

Lemma operand_byte (m : Machine) :
  wf_machine m -> byte (memory m (u16 (PC (cpu m) + 1))).
Proof. intros [Hmem _]. apply Hmem, u16_range. Qed.

Ltac no_top :=
  match goal with
  | |- context [u16 ?a =? 0xFFFF] =>
      let E := fresh "E" in
      destruct (Z.eqb_spec (u16 a) 0xFFFF) as [E | E];
      [ exfalso; rewrite u16_small in E by (unfold byte in *; lia);
        unfold byte in *; lia | ]
  end.

Lemma resolve_undefined_iff (mode : Z) (m : Machine) :
  wf_machine m -> 0 <= mode < 8 ->
  (resolve mode m = Undefined (OutOfBounds 65536)
   <-> 5 <= mode /\ PC (cpu m) = 0xFFFE).
Proof.
  intros Hwf Hm.
  pose proof (operand_byte m Hwf) as Hp.
  destruct Hwf as [Hmem (Hpc & _ & Hx & _)].
  each_bit mode Hm; switch_case; rewrite ?read_word_total, ?read_long_top_cases.
  1-2: no_top; split; [discriminate | lia].
  1-3: split; [discriminate | lia].
  all: destruct (Z.eqb_spec (u16 (PC (cpu m) + 1)) 0xFFFF) as [E | E];
    rewrite (next_is_top _ Hpc) in E;
    (split;
     [ intros H; first [discriminate H | split; [lia | exact E]]
     | intros [_ H]; first [reflexivity | contradiction] ]).
Qed.

Lemma wf_m_top : wf_machine m_top.
Proof.
  split.
  - intros i _. cbn [memory m_top]. unfold byte. destruct (i =? 0xFFFE); lia.
  - unfold wf_cpu, byte, m_top. cbn [cpu PC AC X Y SR SP]. lia.
Qed.

(** X20. On a well-formed machine a step is undefined exactly when PC is
    0xFFFE and the opcode there is recognised with an addressing mode of 5,
    6 or 7 (absolute, absolute indexed): the 16-bit operand would start in
    the last cell. Everywhere else a step returns. *)
Theorem step_undefined_iff (m : Machine) (Hwf : wf_machine m) :
  (exists u, execute_instruction m = Undefined u)
  <-> recognised (lo_nibble (opcode_at m)) = true
      /\ 5 <= addressing_mode (opcode_at m)
      /\ PC (cpu m) = 0xFFFE.
Proof.
  rewrite execute_cases.
  destruct (recognised (lo_nibble (opcode_at m))) eqn:Hrec.
  - pose proof (addressing_mode_range _ Hrec) as Hrange.
    pose proof (resolve_undefined_iff _ m Hwf Hrange) as Hiff.
    destruct (resolve_outcomes _ m Hrange) as [(a & Hres) | Hres].
    + rewrite (normal_dispatch_adc _ a _ m Hres).
      split.
      * intros [u Hu]. discriminate Hu.
      * intros (_ & H5 & Hpc).
        rewrite Hres in Hiff. destruct Hiff as [_ Hback].
        discriminate (Hback (conj H5 Hpc)).
    + assert (normal_dispatch (opcode_at m) m = Undefined (OutOfBounds 65536)) as ->
        by (unfold normal_dispatch, bind; rewrite addressing_mode_u8, Hres; reflexivity).
      split.
      * intros _. split; [reflexivity|]. apply Hiff. exact Hres.
      * intros _. eauto.
  - split.
    + intros [u Hu]. discriminate Hu.
    + intros [H _]. discriminate H.
Qed.

Lemma step_undefined_iff_witness :
  wf_machine m_top /\ exists u, execute_instruction m_top = Undefined u.
Proof.
  split; [exact wf_m_top|].
  apply (step_undefined_iff m_top wf_m_top).
  split; [reflexivity|]. split; [vm_compute; discriminate | reflexivity].
Defined.

(** ** The operand of each addressing mode *)

Lemma addressing_mode_by_nibble (opcode : Z) :
  addressing_mode opcode
  = u8 (Z.lor (Z.shiftr (lo_nibble opcode - 1) 1) (Z.b2z (Z.testbit opcode 4))).
Proof. unfold addressing_mode. now rewrite hi_parity. Qed.

(** A step at a recognised opcode, from what the switch resolved. *)
Lemma step_resolved (m : Machine) (mode a w : Z) :
  recognised (lo_nibble (opcode_at m)) = true ->
  addressing_mode (opcode_at m) = mode ->
  resolve mode m = Returns (Some (u16 a), Some w) m ->
  execute_instruction m
  = Returns tt (set_cpu (set_PC (u16 (PC (cpu m) + w))
                           (adc (memory m (u16 a)) (cpu m))) m).
Proof.
  intros Hrec Hmode Hres. rewrite execute_cases, Hrec.
  apply normal_dispatch_adc. now rewrite Hmode.
Qed.

(** X21. Immediate mode (low nibble 9, even high nibble): the step always
    returns; the operand is the byte after the opcode (at address 0 when PC
    is 0xFFFF), and PC advances by 2 modulo 65536. *)
Theorem step_immediate (m : Machine)
    (Hlo : lo_nibble (opcode_at m) = 0x09)
    (Hhi : Z.testbit (opcode_at m) 4 = false) :
  execute_instruction m
  = Returns tt (set_cpu (set_PC ((PC (cpu m) + 2) mod 65536)
                           (adc (memory m ((PC (cpu m) + 1) mod 65536)) (cpu m))) m).
Proof.
  apply (step_resolved m 4 (PC (cpu m) + 1) 2).
  - now rewrite Hlo.
  - now rewrite addressing_mode_by_nibble, Hlo, Hhi.
  - reflexivity.
Qed.

Lemma step_immediate_witness :
  execute_instruction (mkMachine (program 0x69 0x05) c_demo)
  = Returns tt (mkMachine (program 0x69 0x05) (mkCPU 0x0602 0x42 0xFF 0x00 0x41 0xFD)).
Proof.
  exact (step_immediate (mkMachine (program 0x69 0x05) c_demo) eq_refl eq_refl).
Defined.

(** X22. Zero-page modes (low nibble 5 or 6) on a memory of bytes: the
    step always returns; the operand is read in page zero, at the byte
    after the opcode, plus X modulo 256 when the high nibble is odd; PC
    advances by 2. *)
Theorem step_zero_page (m : Machine)
    (Hmem : wf_memory (memory m))
    (Hlo : lo_nibble (opcode_at m) = 0x05 \/ lo_nibble (opcode_at m) = 0x06) :
  let p := memory m ((PC (cpu m) + 1) mod 65536) in
  let address := (p + (if Z.testbit (opcode_at m) 4 then X (cpu m) else 0)) mod 256 in
  0 <= address < 0x0100
  /\ execute_instruction m
     = Returns tt (set_cpu (set_PC ((PC (cpu m) + 2) mod 65536)
                              (adc (memory m address) (cpu m))) m).
Proof.
  intros p address.
  assert (byte p) as Hp by (apply Hmem, u16_range).
  split; [apply (u8_range (p + _))|].
  assert (recognised (lo_nibble (opcode_at m)) = true) as Hrec
    by (destruct Hlo as [-> | ->]; reflexivity).
  subst address. destruct (Z.testbit (opcode_at m) 4) eqn:Hhi.
  - change ((p + X (cpu m)) mod 256) with (u8 (p + X (cpu m))).
    rewrite <- (u16_u8 (p + X (cpu m))).
    apply (step_resolved m 3 (u8 (p + X (cpu m))) 2); [exact Hrec | | ].
    + rewrite addressing_mode_by_nibble, Hhi. destruct Hlo as [-> | ->]; reflexivity.
    + switch_case. rewrite read_word_total. reflexivity.
  - rewrite Z.add_0_r, (Z.mod_small p 256) by exact Hp.
    replace (memory m p) with (memory m (u16 p))
      by (rewrite u16_small; [reflexivity | unfold byte in Hp; lia]).
    apply (step_resolved m 2 p 2); [exact Hrec | | ].
    + rewrite addressing_mode_by_nibble, Hhi. destruct Hlo as [-> | ->]; reflexivity.
    + switch_case. rewrite read_word_total. reflexivity.
Qed.

Lemma step_zero_page_witness :
  execute_instruction (mkMachine (program 0x75 0x02) c_demo)
  = Returns tt (mkMachine (program 0x75 0x02) (mkCPU 0x0602 0x3D 0xFF 0x00 0x41 0xFD)).
Proof.
  refine (proj2 (step_zero_page (mkMachine (program 0x75 0x02) c_demo) _ (or_introl eq_refl))).
  intros i _. unfold program, byte. cbn [memory].
  destruct (i =? 0x0600); [lia|]. destruct (i =? 0x0601); lia.
Defined.

Lemma read_long_operand (m : Machine) :
  wf_machine m -> PC (cpu m) < 0xFFFE ->
  read_long (PC (cpu m) + 1) m = Returns (operand16 m) m.
Proof.
  intros [Hmem (Hpc & _)] Htop. unfold operand16.
  pose proof (Hmem (PC (cpu m) + 1) ltac:(lia)) as Hlo.
  pose proof (Hmem (PC (cpu m) + 2) ltac:(lia)) as Hhi.
  rewrite read_long_below_top by lia.
  replace (PC (cpu m) + 1 + 1) with (PC (cpu m) + 2) by lia.
  rewrite (u16_small (memory m (PC (cpu m) + 2))) by (unfold byte in Hhi; lia).
  rewrite byte_pair by assumption.
  rewrite u16_small by (unfold byte in *; lia). reflexivity.
Qed.

(** X23. Absolute modes (addressing modes 5, 6, 7) on a well-formed machine
    with PC below 0xFFFE: the step returns; the operand is read at the
    little-endian 16-bit address in the two cells after the opcode, plus Y
    (mode 5) or X (mode 7) modulo 65536; PC advances by 3. *)
Theorem step_absolute (m : Machine)
    (Hwf : wf_machine m)
    (Hrec : recognised (lo_nibble (opcode_at m)) = true)
    (Hmode : 5 <= addressing_mode (opcode_at m))
    (Hpc : PC (cpu m) < 0xFFFE) :
  let mode := addressing_mode (opcode_at m) in
  let index := if mode =? 5 then Y (cpu m) else if mode =? 6 then 0 else X (cpu m) in
  execute_instruction m
  = Returns tt (set_cpu (set_PC ((PC (cpu m) + 3) mod 65536)
                           (adc (memory m ((operand16 m + index) mod 65536)) (cpu m))) m).
Proof.
  intros mode index.
  pose proof (addressing_mode_range _ Hrec) as Hrange.
  pose proof (read_long_operand m Hwf Hpc) as Hread.
  assert (mode = 5 \/ mode = 6 \/ mode = 7) as [E | [E | E]] by (subst mode; lia);
    subst index; rewrite E; cbn [Z.eqb Pos.eqb].
  - apply (step_resolved m 5 (operand16 m + Y (cpu m)) 3); [exact Hrec | exact E |].
    switch_case. rewrite Hread. reflexivity.
  - apply (step_resolved m 6 (operand16 m + 0) 3); [exact Hrec | exact E |].
    switch_case. rewrite Hread, Z.add_0_r. reflexivity.
  - apply (step_resolved m 7 (operand16 m + X (cpu m)) 3); [exact Hrec | exact E |].
    switch_case. rewrite Hread. reflexivity.
Qed.

Lemma wf_program (opcode operand : Z) :
  byte opcode -> byte operand -> wf_machine (mkMachine (program opcode operand) c_demo).
Proof.
  intros Ho Hb. split.
  - intros i _. cbn [memory]. unfold program.
    destruct (i =? 0x0600); [exact Ho|]. destruct (i =? 0x0601); [exact Hb|].
    unfold byte. lia.
  - unfold wf_cpu, byte, c_demo. cbn [cpu PC AC X Y SR SP]. lia.
Qed.

Lemma step_absolute_witness :
  execute_instruction (mkMachine (program 0x7D 0x01) c_demo)
  = Returns tt (mkMachine (program 0x7D 0x01) (mkCPU 0x0603 0x3D 0xFF 0x00 0x41 0xFD)).
Proof.
  refine (step_absolute (mkMachine (program 0x7D 0x01) c_demo) _ eq_refl _ _).
  - apply wf_program; unfold byte; lia.
  - vm_compute. discriminate.
  - unfold c_demo. cbn [cpu PC]. lia.
Defined.

(** ** Subtraction through addition *)

(** X24. [sbc] is [adc] of the one's complement of the operand: for every
    operand and CPU state the two leave the same state. *)
Theorem sbc_is_adc_of_complement (w : Z) (c : CPU) :
  sbc w c = adc (255 - u8 w) c.
Proof.
  assert (u8 (AC c - (u8 w + (1 - Z.land (SR c) Flag.Carry)))
          = u8 (AC c + (u8 (255 - u8 w) + Z.land (SR c) Flag.Carry))) as E.
  { pose proof (u8_range w) as Hw.
    rewrite (u8_small (255 - u8 w)) by lia.
    unfold u8 at 1 3.
    replace (AC c + (255 - u8 w + Z.land (SR c) Flag.Carry))
      with (AC c - (u8 w + (1 - Z.land (SR c) Flag.Carry)) + 1 * 256) by lia.
    now rewrite Z_mod_plus_full. }
  unfold sbc, adc. cbv zeta. rewrite E. reflexivity.
Qed.
